(** * SynopsysCovdbPatch: the patch engine of [src/patcher.py]

    A shallow embedding of [apply_patch] and of the patch catalog
    [PATCH_CONFIG], together with the Python built-ins the function relies
    on ([bytes.__contains__], [bytes.count], [bytes.replace] with a
    maximum count of one, [str.encode('ascii')], [open]/[read]/[write]). *)

From Stdlib Require Import Strings.Byte Ascii String NArith.
From stdpp Require Import base decidable option list gmap.

Local Open Scope nat_scope.

(** ** Python values *)

Module Py.

(** [bytes]: an immutable sequence of octets. *)
Abbreviation bytes := (list byte).

(** [str]: a sequence of Unicode code points. *)
Abbreviation str := (list N).

#[export] Instance byte_eq_decision : EqDecision byte := Byte.byte_eq_dec.

(** A source literal made of ASCII characters only. *)
Definition lit (s : string) : str :=
  N_of_ascii <$> list_ascii_of_string s.

(** [data.startswith(prefix)] *)
Fixpoint startswith (data prefix : bytes) {struct prefix} : bool :=
  match prefix, data with
  | [], _ => true
  | _ :: _, [] => false
  | p :: prefix', d :: data' =>
      if decide (p = d) then startswith data' prefix' else false
  end.

(** [data.find(sub)]: the lowest index at which [sub] starts, [None] for
    Python's [-1].  The empty pattern is found at index 0. *)
Fixpoint find (data sub : bytes) {struct data} : option nat :=
  if startswith data sub then Some 0
  else match data with
       | [] => None
       | _ :: data' => S <$> find data' sub
       end.

(** [sub in data] *)
Definition contains (data sub : bytes) : bool :=
  bool_decide (is_Some (find data sub)).

(** The scan behind [data.count(sub)] for a non-empty [sub]: walk the
    buffer from the left; on a match count one and jump over the whole
    match ([skip] bytes remain to be jumped over), otherwise advance by
    one byte. *)
Fixpoint count_scan (sub : bytes) (skip : nat) (data : bytes) : nat :=
  match data with
  | [] => 0
  | _ :: data' =>
      match skip with
      | S skip' => count_scan sub skip' data'
      | 0 =>
          if startswith data sub
          then S (count_scan sub (length sub - 1) data')
          else count_scan sub 0 data'
      end
  end.

(** [data.count(sub)]: the number of non-overlapping occurrences; the
    empty pattern occurs [len(data) + 1] times. *)
Definition count (data sub : bytes) : nat :=
  match sub with
  | [] => S (length data)
  | _ :: _ => count_scan sub 0 data
  end.

(** [data.replace(old, new, 1)]: the first occurrence of [old], if any,
    is replaced by [new]. *)
Definition replace_first (data old new : bytes) : bytes :=
  match find data old with
  | None => data
  | Some i => take i data ++ new ++ drop (i + length old) data
  end.

(** [s.encode('ascii')]: every code point below 128 becomes one byte; the
    first code point outside that range raises [UnicodeEncodeError],
    reported here with its position. *)
Fixpoint encode_ascii_from (pos : nat) (s : str) : nat + bytes :=
  match s with
  | [] => inr []
  | c :: s' =>
      if (c <? 128)%N then
        match Byte.of_N c, encode_ascii_from (S pos) s' with
        | Some b, inr bs => inr (b :: bs)
        | _, inl p => inl p
        | None, _ => inl pos
        end
      else inl pos
  end.

Definition encode_ascii (s : str) : nat + bytes := encode_ascii_from 0 s.

End Py.

Import Py.

(** ** The operating-system boundary: files, standard streams *)

Module Os.

(** What a path names.  Anything that is not a regular file is a
    directory here; opening one raises [IsADirectoryError]. *)
Inductive node :=
| Regular (content : bytes)
| Directory.

(** The subclasses of [OSError] (of which [IOError] is an alias) that
    [open] raises in this model. *)
Inductive oserror :=
| FileNotFoundError
| IsADirectoryError.

(** The only exception of [apply_patch] that no handler catches. *)
Inductive exn :=
| UnicodeEncodeError (position : nat).

Inductive stream := Stdout | Stderr.

(** The pieces of an f-string: literal text and interpolated values. *)
Inductive fragment :=
| Text (s : string)
| StrVal (s : str)
| IntVal (n : nat)
| ExcVal (e : oserror).

Definition message := list fragment.

Inductive event :=
| Print (out : stream) (msg : message)
| OpenRead (p : str)
| OpenWrite (p : str).

Inductive completion (A : Type) :=
| Returned (a : A)
| Raised (e : exn).
Arguments Returned {A} a.
Arguments Raised {A} e.

(** What running a computation yields: how it ended, the files it
    leaves on disk and, in chronological order, what it did. *)
Record run (A : Type) := Run {
  result : completion A;
  disk : gmap str node;
  events : list event
}.
Arguments Run {A} result disk events.
Arguments result {A} r.
Arguments disk {A} r.
Arguments events {A} r.

(** Computations that read and write the files on disk, act on the
    outside world and may raise. *)
Definition IO (A : Type) : Type := gmap str node -> run A.

Definition ret {A} (a : A) : IO A := fun fs => Run (Returned a) fs [].

Definition raise {A} (e : exn) : IO A := fun fs => Run (Raised e) fs [].

Definition bind {A B} (c : IO A) (k : A -> IO B) : IO B :=
  fun fs =>
    let r := c fs in
    match result r with
    | Returned a =>
        let r' := k a (disk r) in
        Run (result r') (disk r') (events r ++ events r')
    | Raised e => Run (Raised e) (disk r) (events r)
    end.

#[export] Instance io_ret : MRet IO := @ret.
#[export] Instance io_bind : MBind IO := fun A B k c => bind c k.

(** [print(msg)] and [print(msg, file=sys.stderr)] *)
Definition print (out : stream) (msg : message) : IO unit :=
  fun fs => Run (Returned tt) fs [Print out msg].

(** [with open(p, 'rb') as f: f.read()], the [OSError] it may raise
    handed back as a value because the caller catches it on the spot. *)
Definition read_file (p : str) : IO (oserror + bytes) :=
  fun fs =>
    match fs !! p with
    | None => Run (Returned (inl FileNotFoundError)) fs [OpenRead p]
    | Some Directory => Run (Returned (inl IsADirectoryError)) fs [OpenRead p]
    | Some (Regular content) => Run (Returned (inr content)) fs [OpenRead p]
    end.

(** [with open(p, 'wb') as f: f.write(data)]: the file is created, or
    truncated and overwritten; a directory in the way raises. *)
Definition write_file (p : str) (data : bytes) : IO (oserror + unit) :=
  fun fs =>
    match fs !! p with
    | Some Directory => Run (Returned (inl IsADirectoryError)) fs [OpenWrite p]
    | _ => Run (Returned (inr tt)) (<[p := Regular data]> fs) [OpenWrite p]
    end.

(** [s.encode('ascii')] as a computation. *)
Definition encode (s : str) : IO bytes :=
  match encode_ascii s with
  | inr b => ret b
  | inl pos => raise (UnicodeEncodeError pos)
  end.

End Os.

Import Os.

(** ** The patcher *)

(** One entry of [PATCH_CONFIG]: the dictionary with the keys
    ["description"], ["target"] and ["replacement"]. *)
Record patch := Patch {
  description : str;
  target : bytes;
  replacement : bytes
}.

Definition PATCH_CONFIG : list patch := [
  Patch (lit "U-2023.03-SP1")
    [x41;x55;x41;x54;x55;x53;x48;x83;xec;x08;x44;x8b;x25;x67;xec;xdf;x00]
    [xb8;x01;x00;x00;x00;xc3;x48;x83;xec;x08;x44;x8b;x25;x67;xec;xdf;x00];
  Patch (lit "U-2023.03-SP2")
    [x41;x55;x41;x54;x55;x53;x48;x83;xec;x08;x44;x8b;x25;x57;x06;xe0;x00]
    [xb8;x01;x00;x00;x00;xc3;x48;x83;xec;x08;x44;x8b;x25;x57;x06;xe0;x00];
  Patch (lit "U-2023.12-SP1")
    [x41;x55;x41;x54;x55;x53;x48;x83;xec;x08;x44;x8b;x25;x47;xd0;xee;x00]
    [xb8;x01;x00;x00;x00;xc3;x48;x83;xec;x08;x44;x8b;x25;x47;xd0;xee;x00];
  Patch (lit "U-2023.12-SP2")
    [x41;x55;x41;x54;x55;x53;x48;x83;xec;x08;x44;x8b;x25;x07;x0c;xef;x00]
    [xb8;x01;x00;x00;x00;xc3;x48;x83;xec;x08;x44;x8b;x25;x07;x0c;xef;x00];
  Patch (lit "W-2024.09")
    [x55;x48;x89;xe5;x48;x81;xec;x80;x01;x00;x00]
    [x31;xc0;xc3;xe5;x48;x81;xec;x80;x01;x00;x00];
  Patch (lit "W-2024.09-SP1")
    [x55;x48;x89;xe5;x48;x81;xec;x80;x01;x00;x00]
    [x31;xc0;xc3;xe5;x48;x81;xec;x80;x01;x00;x00];
  Patch (lit "W-2024.09-SP2")
    [x55;x48;x89;xe5;x48;x81;xec;x80;x01;x00;x00]
    [x31;xc0;xc3;xe5;x48;x81;xec;x80;x01;x00;x00];
  Patch (lit "X-2025.06")
    [x55;x48;x89;xe5;x48;x81;xec;x80;x01;x00;x00]
    [x31;xc0;xc3;xe5;x48;x81;xec;x80;x01;x00;x00];
  Patch (lit "X-2025.06-SP1")
    [x55;x48;x89;xe5;x48;x81;xec;x80;x01;x00;x00]
    [x31;xc0;xc3;xe5;x48;x81;xec;x80;x01;x00;x00]
].

(** The return sites of [apply_patch], named as the specification names
    them.  The Python function itself returns the Boolean
    [python_return] of the site and tells the sites apart only through
    what it prints. *)
Inductive PatchResult :=
| InvalidDescriptor                  (* line 123 *)
| FileUnreadable (e : oserror)       (* lines 133 and 136 *)
| VersionMismatch                    (* line 146 *)
| AlreadyPatched                     (* line 155 *)
| PatternNotFound                    (* line 161 *)
| AmbiguousMatch (occurrence_count : nat)  (* line 167 *)
| NoEffectiveChange                  (* line 173 *)
| Success (output_path : str)        (* line 180 *)
| OutputWriteFailed (e : oserror).   (* line 183 *)

Definition python_return (r : PatchResult) : bool :=
  match r with
  | Success _ | AlreadyPatched => true
  | _ => false
  end.

(** [s * n] for a one-character literal [s]. *)
Fixpoint times (s : string) (n : nat) : string :=
  match n with
  | 0 => EmptyString
  | S n' => String.append s (times s n')
  end.

(** The escape [\n] inside a literal. *)
Definition nl : string := String (ascii_of_nat 10) EmptyString.

Definition apply_patch (file_path : str) (patch_info : patch) : IO PatchResult :=
  let target_bytes := target patch_info in
  let replacement_bytes := replacement patch_info in
  let version_string := description patch_info in
  if negb (length target_bytes =? length replacement_bytes) then
    print Stderr [Text (times "=" 60)];;
    print Stderr [Text "CRITICAL ERROR: The length of 'target' and 'replacement' bytes must be identical!"];;
    print Stderr [Text "  Target length: "; IntVal (length target_bytes); Text " bytes"];;
    print Stderr [Text "  Replacement length: "; IntVal (length replacement_bytes); Text " bytes"];;
    print Stderr [Text "Aborting to prevent file corruption."];;
    print Stderr [Text (times "=" 60)];;
    ret InvalidDescriptor
  else
    print Stdout [Text nl; Text "[*] Applying patch for version: '"; StrVal version_string; Text "'"];;
    print Stdout [Text "[*] Target file: "; StrVal file_path];;
    r ← read_file file_path;
    match r with
    | inl FileNotFoundError =>
        print Stderr [Text "Error: File not found at '"; StrVal file_path; Text "'"];;
        ret (FileUnreadable FileNotFoundError)
    | inl e =>
        print Stderr [Text "Error reading file '"; StrVal file_path; Text "': "; ExcVal e];;
        ret (FileUnreadable e)
    | inr original_data =>
        version_bytes ← encode version_string;
        if negb (contains original_data version_bytes) then
          print Stdout [Text nl; Text "[!] ERROR: Version mismatch or incorrect file selected."];;
          print Stdout [Text "[!] The version string '"; StrVal version_string;
                        Text "' was NOT found inside the file '"; StrVal file_path; Text "'."];;
          print Stdout [Text "[!] Please ensure you are patching the correct file and have selected the right version."];;
          ret VersionMismatch
        else
          print Stdout [Text "[*] Version check passed. Found '"; StrVal version_string; Text "' in the file."];;
          if contains original_data replacement_bytes then
            print Stdout [Text nl; Text "[*] Info: The replacement byte sequence already exists in the file."];;
            print Stdout [Text "[*] The file appears to be already patched. No action needed."];;
            ret AlreadyPatched
          else
            let occurrence_count := count original_data target_bytes in
            if occurrence_count =? 0 then
              print Stdout [Text nl; Text "[!] Patch failed: Target instruction sequence not found in the file."];;
              print Stdout [Text "[!] The file seems to be the correct version, but the specific byte sequence to be patched was not found."];;
              ret PatternNotFound
            else
              print Stdout [Text "[*] Found "; IntVal occurrence_count; Text " occurrence(s) of the target sequence."];;
              if 1 <? occurrence_count then
                print Stdout [Text "[!] Warning: Multiple occurrences found. Aborting to prevent potential mis-patching."];;
                print Stdout [Text "[!] Please manually verify the target offsets with a tool like 'objdump'."];;
                ret (AmbiguousMatch occurrence_count)
              else
                let patched_data := replace_first original_data target_bytes replacement_bytes in
                if bool_decide (patched_data = original_data) then
                  print Stderr [Text nl; Text "[!] Patch failed: Data remained unchanged after replacement attempt."];;
                  ret NoEffectiveChange
                else
                  let output_path := file_path ++ lit ".patched" in
                  w ← write_file output_path patched_data;
                  match w with
                  | inr _ =>
                      print Stdout [Text nl; Text "[+] Success! Patched file saved to: "; StrVal output_path];;
                      ret (Success output_path)
                  | inl e =>
                      print Stderr [Text "Error writing to output file '"; StrVal output_path; Text "': "; ExcVal e];;
                      ret (OutputWriteFailed e)
                  end
    end.

(** ** Vocabulary of the statements *)

(** [sub] occurs in [data] as a contiguous run of bytes. *)
Definition occurs (sub data : bytes) : Prop :=
  exists pre post, data = pre ++ sub ++ post.

(** [sub] occurs in [data] at two places that do not overlap. *)
Definition occurs_twice (sub data : bytes) : Prop :=
  exists a b c, data = a ++ sub ++ b ++ sub ++ c.

(** The event is no access to a file. *)
Definition is_print (e : event) : bool :=
  match e with
  | Print _ _ => true
  | _ => false
  end.

(** The event opens some file for writing. *)
Definition is_open_write (e : event) : bool :=
  match e with
  | OpenWrite _ => true
  | _ => false
  end.

(** The failures that end a call before the output file is opened. *)
Definition fails_before_write (r : PatchResult) : bool :=
  match r with
  | InvalidDescriptor | FileUnreadable _ | VersionMismatch
  | PatternNotFound | AmbiguousMatch _ | NoEffectiveChange => true
  | _ => false
  end.

(** The return sites behind line 175, where the output file is opened. *)
Definition opens_output (r : PatchResult) : bool :=
  match r with
  | Success _ | OutputWriteFailed _ => true
  | _ => false
  end.

(** The first line a version mismatch prints (line 143) and the first
    line a missing target pattern prints (line 159). *)
Definition version_mismatch_banner : event :=
  Print Stdout [Text nl; Text "[!] ERROR: Version mismatch or incorrect file selected."].

Definition pattern_not_found_banner : event :=
  Print Stdout [Text nl; Text "[!] Patch failed: Target instruction sequence not found in the file."].

(** What every call respects, whatever its arguments: the only file it
    may open for writing is the sibling [.patched] path, and a call that
    ends before line 175 leaves the disk as it found it. *)
Definition frame_ok (path : str) (fs : gmap str node) (r : run PatchResult) : Prop :=
  (forall p, In (OpenWrite p) (events r) -> p = path ++ lit ".patched") /\
  (forall x, result r = Returned x -> opens_output x = false ->
     disk r = fs /\
     forallb (fun e => negb (is_open_write e)) (events r) = true) /\
  (forall e, result r = Raised e -> disk r = fs) /\
  (forall p, p <> path ++ lit ".patched" -> disk r !! p = fs !! p).

(** Small inputs for the examples below. *)
Definition demo_patch : patch := Patch (lit "A") [x01] [x02].

Definition demo_disk (data : bytes) : gmap str node :=
  {[ lit "f" := Regular data ]}.

(** A descriptor whose label and target pattern are the same bytes. *)
Definition overlap_patch : patch := Patch (lit "AB") [x41; x42] [x58; x59].

(** A descriptor whose label has a code point above 127. *)
Definition latin1_patch : patch := Patch (lit "v" ++ [233%N]) [x01] [x02].

(** ** The command-line front end *)

(** The library calls of the front end whose behaviour is left open here:
    every statement below holds whatever they compute. *)
Class PyLib := {
  (** [int(s)]; [None] where Python raises [ValueError]. *)
  int : str -> option Z;
  (** [parser.parse_args()], given [sys.argv[1:]]: the positional
      [so_file], or what argparse prints before it calls [sys.exit(code)]. *)
  parse_args : list str -> (list event * nat) + str;
  (** The text of [parser.print_help], given [sys.argv]. *)
  format_help : list str -> message
}.

(** The loop of lines 82-83, [i] counting from the index of the first
    entry of [config]. *)
Fixpoint print_entries (i : nat) (config : list patch) : IO unit :=
  match config with
  | [] => mret tt
  | p :: config' =>
      print Stdout [Text "  ["; IntVal (i + 1); Text "] "; StrVal (description p)];;
      print_entries (S i) config'
  end.

(** [display_patches], for the catalog the script is edited to hold. *)
Definition display_patches_of (config : list patch) : IO unit :=
  print Stdout [Text (times "=" 50)];;
  print Stdout [Text "  Available Patch Versions:"];;
  print Stdout [Text (times "=" 50)];;
  match config with
  | [] => print Stdout [Text "  No patches configured. Please edit the script."]
  | _ :: _ =>
      print_entries 0 config;;
      print Stdout [Text (times "-" 50)]
  end.

Definition display_patches : IO unit := display_patches_of PATCH_CONFIG.

(** What successive calls of [input] meet on standard input: a line, or
    Ctrl-C ([KeyboardInterrupt]); once the list is used up, the end of the
    input ([EOFError]). *)
Inductive key :=
| Line (text : str)
| Interrupt.

(** What the front end does, in order: the events of above, and calls of
    [input] with their prompt. *)
Inductive action :=
| Did (e : event)
| Asked (prompt : string).

(** How [select_patch] ends: it returns a catalog entry, or leaves through
    [sys.exit(1)] (line 105). *)
Inductive choice :=
| Chosen (p : patch)
| Cancelled.

Record selection := Selection {
  chosen : choice;
  unread : list key;
  said : list action
}.

Definition select_prompt : string :=
  "Please select a patch version to apply (enter number): ".

Definition cancel_notice : action :=
  Did (Print Stderr [Text nl; Text "Operation cancelled by user."]).

Definition not_a_number_notice : action :=
  Did (Print Stderr [Text "Error: Invalid input. Please enter a number."]).

Definition out_of_range_notice (n : nat) : action :=
  Did (Print Stderr [Text "Error: Invalid selection. Please enter a number between 1 and ";
                     IntVal n; Text "."]).

(** One more round of the loop of lines 93-105 after a notice. *)
Definition retry (notice : action) (s : selection) : selection :=
  Selection (chosen s) (unread s) (Asked select_prompt :: notice :: said s).

(** The [while True] loop of lines 93-105. *)
Fixpoint select_loop `{PyLib} (config : list patch) (keys : list key) : selection :=
  match keys with
  | [] => Selection Cancelled [] [Asked select_prompt; cancel_notice]
  | Interrupt :: keys' =>
      Selection Cancelled keys' [Asked select_prompt; cancel_notice]
  | Line text :: keys' =>
      match int text with
      | None => retry not_a_number_notice (select_loop config keys')
      | Some n =>
          let choice_index := (n - 1)%Z in
          match
            (if (0 <=? choice_index)%Z && (choice_index <? Z.of_nat (length config))%Z
             then config !! Z.to_nat choice_index else None)
          with
          | Some p => Selection (Chosen p) keys' [Asked select_prompt]
          | None =>
              retry (out_of_range_notice (length config)) (select_loop config keys')
          end
      end
  end.

(** [select_patch], for the catalog the script is edited to hold. *)
Definition select_patch_of `{PyLib} (config : list patch) (keys : list key)
  : selection :=
  match config with
  | [p] =>
      Selection (Chosen p) keys
        [Did (Print Stdout [Text "Found only one available patch. Auto-selecting it."])]
  | _ => select_loop config keys
  end.

Definition select_patch `{PyLib} : list key -> selection :=
  select_patch_of PATCH_CONFIG.

(** How the process ends: [sys.exit(code)], or an exception nobody
    caught. *)
Inductive termination :=
| SystemExit (code : nat)
| Uncaught (e : exn).

Record session := Session {
  ending : termination;
  disk_after : gmap str node;
  unread_after : list key;
  transcript : list action
}.

(** [main], for the catalog the script is edited to hold. *)
Definition main_of `{PyLib} (config : list patch)
    (argv : list str) (keys : list key) (fs : gmap str node) : session :=
  if length argv =? 1 then
    Session (SystemExit 1) fs keys [Did (Print Stderr (format_help argv))]
  else
    match parse_args (tail argv) with
    | inl (printed, code) => Session (SystemExit code) fs keys (Did <$> printed)
    | inr so_file =>
        let shown := display_patches_of config fs in
        let sel := select_patch_of config keys in
        match chosen sel with
        | Cancelled =>
            Session (SystemExit 1) (disk shown) (unread sel)
              ((Did <$> events shown) ++ said sel)
        | Chosen selected_patch =>
            let r := apply_patch so_file selected_patch (disk shown) in
            Session
              match result r with
              | Returned x => SystemExit (if python_return x then 0 else 1)
              | Raised e => Uncaught e
              end
              (disk r) (unread sel)
              ((Did <$> events shown) ++ said sel ++ (Did <$> events r))
        end
    end.

Definition main `{PyLib} : list str -> list key -> gmap str node -> session :=
  main_of PATCH_CONFIG.

(** ** Vocabulary of the further statements *)

(** The accesses to files among the events of a run. *)
Definition file_ops (l : list event) : list event :=
  filter (fun e => is_print e = false) l.

(** A run with some earlier events put in front of its own. *)
Definition after {A} (earlier : list event) (r : run A) : run A :=
  Run (result r) (disk r) (earlier ++ events r).

(** The same among the actions of a session. *)
Definition opens_file (a : action) : bool :=
  match a with
  | Did (OpenRead _) | Did (OpenWrite _) => true
  | _ => false
  end.

(** The three lines above the menu, the line below it, and the line shown
    instead of both for an empty catalog (lines 75-79 and 84). *)
Definition menu_header : list event :=
  [Print Stdout [Text (times "=" 50)];
   Print Stdout [Text "  Available Patch Versions:"];
   Print Stdout [Text (times "=" 50)]].

Definition menu_footer : event := Print Stdout [Text (times "-" 50)].

Definition no_patches_notice : event :=
  Print Stdout [Text "  No patches configured. Please edit the script."].

(** The line of the menu for the entry at index [i] (line 83). *)
Definition menu_line (i : nat) (p : patch) : event :=
  Print Stdout [Text "  ["; IntVal (i + 1); Text "] "; StrVal (description p)].

(** A line that [select_patch] turns down: no number, or a number outside
    [1 .. n]. *)
Definition turned_down `{PyLib} (n : nat) (text : str) : Prop :=
  match int text with
  | None => True
  | Some k => (k < 1 \/ Z.of_nat n < k)%Z
  end.

(** The notice printed for such a line. *)
Definition notice_for `{PyLib} (n : nat) (text : str) : action :=
  match int text with
  | None => not_a_number_notice
  | Some _ => out_of_range_notice n
  end.

(** The prompts and notices for a run of lines that are all turned down. *)
Definition notices `{PyLib} (n : nat) (texts : list str) : list action :=
  texts ≫= fun text => [Asked select_prompt; notice_for n text].

(** A stand-in for the library, for the examples: [int] reads one ASCII
    digit, [parse_args] takes a single argument as [so_file] and lets
    argparse leave with status 2 otherwise. *)
Definition demo_int (s : str) : option Z :=
  match s with
  | [c] => if ((48 <=? c) && (c <=? 57))%N then Some (Z.of_N c - 48)%Z else None
  | _ => None
  end.

#[local] Instance demo_lib : PyLib := {|
  int := demo_int;
  parse_args args := match args with [f] => inr f | _ => inl ([], 2) end;
  format_help _ := [Text "usage"]
|}.

Definition demo_catalog : list patch :=
  [demo_patch; overlap_patch; latin1_patch].

(** ** Tactics that run [apply_patch] *)

Ltac run_io :=
  cbv [mbind io_bind bind mret io_ret ret raise print read_file write_file
       encode result disk events negb].

(** Case analysis on the innermost undecided test of the goal. *)
Ltac inner_case :=
  match goal with
  | |- context [match ?x with _ => _ end] =>
      lazymatch x with
      | context [match _ with _ => _ end] => fail
      | _ => destruct x eqn:?
      end
  end.

Ltac all_paths :=
  unfold apply_patch; run_io; repeat (inner_case; cbv beta iota zeta).

(** Follow the path the hypotheses select. *)
Ltac this_path :=
  unfold apply_patch; run_io;
  repeat match goal with
    | H : ?x = _ |- context [match ?x with _ => _ end] =>
        rewrite H; cbv beta iota zeta
    end.

(** ** Sanity checks of the built-ins on concrete buffers *)

Example find_inner : find [x01;x02;x03] [x02;x03] = Some 1.
Proof. reflexivity. Qed.

Example find_empty_pattern : find [] [] = Some 0.
Proof. reflexivity. Qed.

Example count_overlapping : count [x01;x01;x01] [x01;x01] = 1.
Proof. reflexivity. Qed.

Example count_disjoint : count [x01;x01;x01;x01] [x01;x01] = 2.
Proof. reflexivity. Qed.

Example count_empty_pattern : count [x01;x02] [] = 3.
Proof. reflexivity. Qed.

Example replace_first_only :
  replace_first [x01;x02;x03;x02] [x02] [x09] = [x01;x09;x03;x02].
Proof. reflexivity. Qed.

Example encode_label :
  encode_ascii (lit "W-2024.09") = inr [x57;x2d;x32;x30;x32;x34;x2e;x30;x39].
Proof. reflexivity. Qed.

Example encode_latin1 : encode_ascii (lit "ab" ++ [233%N]) = inl 2.
Proof. reflexivity. Qed.

(** ** Facts about the built-ins *)

Section Builtins.

Implicit Types data sub pre post old new : bytes.

Lemma startswith_app sub post : startswith (sub ++ post) sub = true.
Proof.
  induction sub as [|b sub IH]; simpl; [done|].
  by rewrite decide_True.
Qed.

Lemma startswith_inv data sub :
  startswith data sub = true -> exists post, data = sub ++ post.
Proof.
  revert data; induction sub as [|b sub IH]; intros data H.
  - by exists data.
  - destruct data as [|d data]; simpl in H; [done|].
    destruct (decide (b = d)) as [->|]; [|done].
    destruct (IH _ H) as [post ->]. by exists post.
Qed.

Lemma startswith_nil_l sub : sub <> [] -> startswith [] sub = false.
Proof. by destruct sub. Qed.

(** [find] returns an index at which the pattern does start. *)
Lemma find_Some data sub i :
  find data sub = Some i ->
  data = take i data ++ sub ++ drop (i + length sub) data.
Proof.
  revert i; induction data as [|d data IH]; intros i; simpl.
  - destruct (startswith [] sub) eqn:E; [|done].
    intros [= <-]. destruct (startswith_inv _ _ E) as [post Hp].
    symmetry in Hp. apply app_eq_nil in Hp as [-> ->]. done.
  - destruct (startswith (d :: data) sub) eqn:E.
    + intros [= <-]. destruct (startswith_inv _ _ E) as [post Hp].
      rewrite Hp at 1. simpl. f_equal.
      rewrite Hp, drop_app_length. done.
    + destruct (find data sub) as [j|] eqn:F; simpl; [|done].
      intros [= <-]. simpl. f_equal. by apply IH.
Qed.

(** [find] returns the lowest such index. *)
Lemma find_app pre sub post :
  exists i, find (pre ++ sub ++ post) sub = Some i /\ i <= length pre.
Proof.
  induction pre as [|p pre IH].
  - exists 0. split; [|done]. simpl.
    destruct (sub ++ post) eqn:E; simpl; rewrite <- ?E.
    + apply app_eq_nil in E as [-> _]. done.
    + by rewrite startswith_app.
  - destruct IH as (i & Hi & Hle). simpl.
    destruct (startswith _ sub).
    + exists 0. split; [done|lia].
    + exists (S i). rewrite Hi. split; [done|simpl; lia].
Qed.

Lemma find_occurs data sub : is_Some (find data sub) <-> occurs sub data.
Proof.
  split.
  - intros [i Hi]. apply find_Some in Hi. by eexists _, _.
  - intros (pre & post & ->).
    destruct (find_app pre sub post) as (i & -> & _). by eexists.
Qed.

(** [sub in data] decides [occurs]. *)
Lemma contains_occurs data sub : contains data sub = true <-> occurs sub data.
Proof.
  unfold contains. rewrite bool_decide_eq_true. apply find_occurs.
Qed.

Lemma contains_false data sub :
  contains data sub = false <-> ~ occurs sub data.
Proof.
  rewrite <- contains_occurs. by destruct (contains data sub).
Qed.

Lemma count_scan_skip sub k data :
  count_scan sub k data = count_scan sub 0 (drop k data).
Proof.
  revert k; induction data as [|d data IH]; intros k.
  - by rewrite drop_nil.
  - destruct k as [|k]; [done|]. simpl. apply IH.
Qed.

(** The scan is "find the next match, count it, go on behind it". *)
Lemma count_scan_find sub data :
  sub <> [] ->
  count_scan sub 0 data =
    match find data sub with
    | None => 0
    | Some i => S (count_scan sub 0 (drop (i + length sub) data))
    end.
Proof.
  intros Hsub. induction data as [|d data IH]; simpl.
  - by rewrite startswith_nil_l.
  - destruct (startswith (d :: data) sub) eqn:E.
    + rewrite count_scan_skip. do 2 f_equal.
      destruct sub; [done|]. simpl. by rewrite Nat.sub_0_r.
    + rewrite IH. by destruct (find data sub).
Qed.

Lemma count_find data sub :
  sub <> [] ->
  count data sub =
    match find data sub with
    | None => 0
    | Some i => S (count (drop (i + length sub) data) sub)
    end.
Proof.
  intros Hsub. unfold count. destruct sub as [|b sub]; [done|].
  by apply count_scan_find.
Qed.

Lemma count_zero data sub : count data sub = 0 <-> ~ occurs sub data.
Proof.
  rewrite <- find_occurs. destruct sub as [|b sub].
  - simpl. split; [done|]. intros H. destruct H.
    destruct data; simpl; by eexists.
  - rewrite count_find by done.
    destruct (find data (b :: sub)) as [i|].
    + split; [done|]. intros H. destruct H. by eexists.
    + split; [|done]. by intros _ [? ?].
Qed.

Lemma count_pos data sub :
  0 < count data sub -> exists i, find data sub = Some i.
Proof.
  intros H. destruct (find data sub) as [i|] eqn:F; [by eexists|].
  assert (count data sub = 0); [|lia].
  apply count_zero. rewrite <- find_occurs, F. by intros [? ?].
Qed.

(** For a non-empty pattern, [count] reports two or more exactly when
    two occurrences that do not overlap exist. *)
Lemma count_two data sub :
  sub <> [] -> 2 <= count data sub <-> occurs_twice sub data.
Proof.
  intros Hsub. rewrite count_find by done. split.
  - destruct (find data sub) as [i|] eqn:F; [|lia]. intros H.
    destruct (count_pos (drop (i + length sub) data) sub) as [j Hj]; [lia|].
    apply find_Some in F, Hj.
    exists (take i data), (take j (drop (i + length sub) data)),
      (drop (j + length sub) (drop (i + length sub) data)).
    by rewrite <- Hj.
  - intros (a & b & c & ->).
    destruct (find_app a sub (b ++ sub ++ c)) as (i & -> & Hi).
    assert (0 < count (drop (i + length sub) (a ++ sub ++ b ++ sub ++ c)) sub);
      [|lia].
    destruct (count (drop (i + length sub) (a ++ sub ++ b ++ sub ++ c)) sub)
      eqn:E; [|lia].
    apply count_zero in E. destruct E.
    replace (a ++ sub ++ b ++ sub ++ c) with ((a ++ sub) ++ b ++ sub ++ c)
      by by rewrite <- app_assoc.
    rewrite drop_app_le by (rewrite length_app; lia).
    exists (drop (i + length sub) (a ++ sub) ++ b), c.
    by rewrite <- !app_assoc.
Qed.

(** With the pattern present, [replace_first] rewrites the first match
    and leaves the bytes before and behind it alone. *)
Lemma replace_first_found data old new :
  occurs old data ->
  exists pre post,
    data = pre ++ old ++ post /\
    replace_first data old new = pre ++ new ++ post.
Proof.
  intros H. apply find_occurs in H as [i Hi]. unfold replace_first.
  rewrite Hi. apply find_Some in Hi. by eexists _, _.
Qed.

(** A replacement that the buffer does not contain always changes it. *)
Lemma replace_first_changes data old new :
  occurs old data -> ~ occurs new data -> replace_first data old new <> data.
Proof.
  intros Ho Hn. destruct (replace_first_found data old new Ho)
    as (pre & post & _ & ->).
  intros E. apply Hn. by exists pre, post.
Qed.

Lemma encode_ascii_from_inr pos s b :
  encode_ascii_from pos s = inr b -> Forall (fun c => (c < 128)%N) s.
Proof.
  revert pos b; induction s as [|c s IH]; intros pos b; simpl; [done|].
  destruct (c <? 128)%N eqn:E; [|done].
  destruct (Byte.of_N c); destruct (encode_ascii_from (S pos) s) eqn:F;
    try done.
  intros _. constructor; [by apply N.ltb_lt|by eapply IH].
Qed.

(** Encoding fails exactly on strings with a code point above 127. *)
Lemma encode_ascii_from_inl pos s :
  Exists (fun c => (128 <= c)%N) s -> exists p, encode_ascii_from pos s = inl p.
Proof.
  intros H. revert pos. induction H as [c s Hc|c s _ IH]; intros pos; simpl.
  - apply N.ltb_ge in Hc. rewrite Hc. by eexists.
  - destruct (c <? 128)%N; [|by eexists].
    destruct (IH (S pos)) as [p ->]. destruct (Byte.of_N c); by eexists.
Qed.

End Builtins.

(** ** Facts about [apply_patch] *)

Lemma patched_path_fresh (path : str) : path ++ lit ".patched" <> path.
Proof.
  intros H. apply (f_equal length) in H. rewrite length_app in H.
  simpl in H. lia.
Qed.

Lemma apply_patch_frame path d fs : frame_ok path fs (apply_patch path d fs).
Proof.
  all_paths.
  all: unfold frame_ok; cbn [result disk events app].
  all: split; [intros p Hp; simpl in Hp; intuition congruence|].
  all: split; [intros x Hx Hf; simplify_eq; try done|].
  all: split; [intros e He; by simplify_eq|].
  all: intros p Hp; try done; by rewrite lookup_insert_ne.
Qed.

Section Gates.

Variables (path : str) (d : patch) (fs : gmap str node).

Lemma gate_length :
  length (target d) <> length (replacement d) ->
  result (apply_patch path d fs) = Returned InvalidDescriptor.
Proof. intros H%Nat.eqb_neq. by this_path. Qed.

Lemma gate_encode data :
  length (target d) = length (replacement d) ->
  fs !! path = Some (Regular data) ->
  forall pos, encode_ascii (description d) = inl pos ->
  apply_patch path d fs =
    Run (Raised (UnicodeEncodeError pos)) fs
      [Print Stdout [Text nl; Text "[*] Applying patch for version: '";
                     StrVal (description d); Text "'"];
       Print Stdout [Text "[*] Target file: "; StrVal path];
       OpenRead path].
Proof. intros H%Nat.eqb_eq Hr pos He. by this_path. Qed.

Section Readable.

Variables (data label : bytes).
Hypothesis Hlen : length (target d) = length (replacement d).
Hypothesis Hread : fs !! path = Some (Regular data).
Hypothesis Hlabel : encode_ascii (description d) = inr label.

Lemma gate_version :
  ~ occurs label data ->
  result (apply_patch path d fs) = Returned VersionMismatch /\
  In version_mismatch_banner (events (apply_patch path d fs)) /\
  ~ In pattern_not_found_banner (events (apply_patch path d fs)).
Proof.
  intros Hv%contains_false. apply Nat.eqb_eq in Hlen. this_path.
  split; [done|]. split; simpl.
  - unfold version_mismatch_banner. tauto.
  - unfold pattern_not_found_banner. intuition congruence.
Qed.

Lemma gate_idempotence :
  occurs label data -> occurs (replacement d) data ->
  result (apply_patch path d fs) = Returned AlreadyPatched.
Proof.
  intros Hv%contains_occurs Hp%contains_occurs.
  apply Nat.eqb_eq in Hlen. by this_path.
Qed.

Lemma gate_not_found :
  occurs label data -> ~ occurs (replacement d) data ->
  ~ occurs (target d) data ->
  result (apply_patch path d fs) = Returned PatternNotFound.
Proof.
  intros Hv%contains_occurs Hp%contains_false Hc%count_zero.
  apply Nat.eqb_eq in Hlen. this_path. by rewrite Hc.
Qed.

Lemma gate_ambiguous :
  occurs label data -> ~ occurs (replacement d) data ->
  2 <= count data (target d) ->
  result (apply_patch path d fs) =
    Returned (AmbiguousMatch (count data (target d))).
Proof.
  intros Hv%contains_occurs Hp%contains_false Hc.
  apply Nat.eqb_eq in Hlen. this_path.
  assert ((count data (target d) =? 0) = false) as ->
    by (apply Nat.eqb_neq; lia).
  by assert ((1 <? count data (target d)) = true) as ->
    by (apply Nat.ltb_lt; lia).
Qed.

Lemma gate_single :
  occurs label data -> ~ occurs (replacement d) data ->
  count data (target d) = 1 ->
  fs !! (path ++ lit ".patched") <> Some Directory ->
  result (apply_patch path d fs) =
    Returned (Success (path ++ lit ".patched")) /\
  disk (apply_patch path d fs) =
    <[path ++ lit ".patched" :=
        Regular (replace_first data (target d) (replacement d))]> fs.
Proof.
  intros Hv%contains_occurs Hp Hc Hw.
  assert (occurs (target d) data) as Ho.
  { destruct (count_pos data (target d)) as [i Hi]; [lia|].
    apply find_occurs. by eexists. }
  pose proof (replace_first_changes _ _ _ Ho Hp) as Hne.
  apply (bool_decide_eq_false_2 _) in Hne.
  apply contains_false in Hp. apply Nat.eqb_eq in Hlen.
  assert ((count data (target d) =? 0) = false) as H0 by by rewrite Hc.
  assert ((1 <? count data (target d)) = false) as H1 by by rewrite Hc.
  destruct (fs !! (path ++ lit ".patched")) as [[]|] eqn:E;
    [by this_path|done|by this_path].
Qed.

End Readable.

(** A call that reports success went through every gate. *)
Lemma success_inv out :
  result (apply_patch path d fs) = Returned (Success out) ->
  out = path ++ lit ".patched" /\
  exists data label,
    length (target d) = length (replacement d) /\
    fs !! path = Some (Regular data) /\
    encode_ascii (description d) = inr label /\
    occurs label data /\
    ~ occurs (replacement d) data /\
    count data (target d) = 1 /\
    fs !! out <> Some Directory.
Proof.
  all_paths; cbn [result]; intros [= <-].
  all: split; [done|]; eexists _, _.
  all: repeat match goal with
         | H : (_ =? _) = true |- _ => apply Nat.eqb_eq in H
         | H : (_ =? _) = false |- _ => apply Nat.eqb_neq in H
         | H : (_ <? _) = false |- _ => apply Nat.ltb_ge in H
         | H : contains _ _ = true |- _ => apply contains_occurs in H
         | H : contains _ _ = false |- _ => apply contains_false in H
         end.
  all: repeat split; try done; try lia; congruence.
Qed.

(** The defensive test of line 171 never succeeds. *)
Lemma never_unchanged :
  result (apply_patch path d fs) <> Returned NoEffectiveChange.
Proof.
  all_paths; cbn [result]; try done.
  exfalso.
  match goal with H : bool_decide _ = true |- _ =>
    apply bool_decide_eq_true in H; revert H end.
  apply replace_first_changes.
  - match goal with H : (count _ _ =? 0) = false |- _ =>
      apply Nat.eqb_neq in H; rename H into Hc end.
    destruct (count_pos content (target d)) as [i Hi]; [lia|].
    apply find_occurs. by eexists.
  - by apply contains_false.
Qed.

(** Only a run that stops at line 161 prints the line of that site. *)
Lemma not_found_banner :
  result (apply_patch path d fs) = Returned PatternNotFound ->
  In pattern_not_found_banner (events (apply_patch path d fs)) /\
  ~ In version_mismatch_banner (events (apply_patch path d fs)).
Proof.
  all_paths; cbn [result events app]; intros [=].
  unfold pattern_not_found_banner, version_mismatch_banner.
  split; simpl; [tauto|intuition congruence].
Qed.

End Gates.

(** ** Further facts used by the main results *)

Lemma count_one data sub :
  sub <> [] ->
  count data sub = 1 <-> occurs sub data /\ ~ occurs_twice sub data.
Proof.
  intros Hs. rewrite <- count_two by done. split.
  - intros H. split; [|lia].
    destruct (count_pos data sub) as [i Hi]; [lia|].
    apply find_occurs. by eexists.
  - intros [Ho Hn]. apply find_occurs in Ho as [i Hi].
    pose proof (count_find data sub Hs) as E. rewrite Hi in E. lia.
Qed.

(** A same-length splice agrees with the original outside the spliced
    range. *)
Lemma splice_lookup (pre old new post : bytes) i :
  length old = length new ->
  i < length pre \/ length pre + length old <= i ->
  (pre ++ new ++ post) !! i = (pre ++ old ++ post) !! i.
Proof.
  intros Hl [Hi|Hi].
  - by rewrite !lookup_app_l.
  - rewrite !lookup_app_r by lia. by rewrite Hl.
Qed.

Lemma splice_inside (pre new post : bytes) :
  take (length new) (drop (length pre) (pre ++ new ++ post)) = new.
Proof. by rewrite drop_app_length, take_app_length. Qed.

Lemma invalid_inv path d fs :
  result (apply_patch path d fs) = Returned InvalidDescriptor ->
  length (target d) <> length (replacement d).
Proof.
  all_paths; cbn [result]; intros [=]. by apply Nat.eqb_neq.
Qed.

Lemma length_gate_run path d :
  length (target d) <> length (replacement d) ->
  exists report,
    forallb is_print report = true /\
    forall fs, apply_patch path d fs = Run (Returned InvalidDescriptor) fs report.
Proof.
  intros H%Nat.eqb_neq. eexists. split; last first.
  - intros fs. this_path. reflexivity.
  - reflexivity.
Qed.

Lemma fails_before_write_closed r :
  fails_before_write r = true -> opens_output r = false.
Proof. by destruct r. Qed.

(** ** The claims *)

(** C1.  With equal-length patterns, a buffer that holds the encoded
    label, in which [count] finds the target pattern exactly once and
    which does not hold the replacement pattern, and an output path that
    can be written, the call succeeds: the sibling [.patched] file holds
    the input with the matched range, and nothing else, replaced by the
    replacement pattern; its length is that of the input; the original
    file, and every other file, is as it was. *)
Theorem single_match_is_patched path d fs data label :
  length (target d) = length (replacement d) ->
  fs !! path = Some (Regular data) ->
  fs !! (path ++ lit ".patched") <> Some Directory ->
  encode_ascii (description d) = inr label ->
  occurs label data ->
  count data (target d) = 1 ->
  ~ occurs (replacement d) data ->
  exists pre post,
    data = pre ++ target d ++ post /\
    result (apply_patch path d fs) =
      Returned (Success (path ++ lit ".patched")) /\
    disk (apply_patch path d fs) !! (path ++ lit ".patched") =
      Some (Regular (pre ++ replacement d ++ post)) /\
    length (pre ++ replacement d ++ post) = length data /\
    (forall i, i < length pre \/ length pre + length (target d) <= i ->
       (pre ++ replacement d ++ post) !! i = data !! i) /\
    take (length (replacement d))
      (drop (length pre) (pre ++ replacement d ++ post)) = replacement d /\
    disk (apply_patch path d fs) !! path = Some (Regular data) /\
    (forall p, p <> path ++ lit ".patched" ->
       disk (apply_patch path d fs) !! p = fs !! p).
Proof.
  intros Hlen Hread Hw Hlabel Hv Hc Hp.
  destruct (gate_single path d fs data label Hlen Hread Hlabel Hv Hp Hc Hw)
    as [Hres Hdisk].
  assert (occurs (target d) data) as Ho.
  { destruct (count_pos data (target d)) as [i Hi]; [lia|].
    apply find_occurs. by eexists. }
  destruct (replace_first_found data (target d) (replacement d) Ho)
    as (pre & post & Hdata & Hrep).
  exists pre, post. rewrite Hdisk, Hrep.
  split; [done|]. split; [done|].
  split; [by rewrite lookup_insert_eq|].
  split; [rewrite Hdata, !length_app; lia|].
  split; [intros i Hi; rewrite Hdata; by apply splice_lookup|].
  split; [apply splice_inside|].
  split.
  - rewrite lookup_insert_ne; [done|apply patched_path_fresh].
  - intros p Hne. by rewrite lookup_insert_ne.
Qed.

Lemma single_match_is_patched_witness :
  exists pre post,
    [x41; x07; x01; x03] = pre ++ [x01] ++ post /\
    result (apply_patch (lit "f") demo_patch (demo_disk [x41; x07; x01; x03])) =
      Returned (Success (lit "f" ++ lit ".patched")) /\
    disk (apply_patch (lit "f") demo_patch (demo_disk [x41; x07; x01; x03]))
      !! (lit "f" ++ lit ".patched") =
      Some (Regular (pre ++ [x02] ++ post)) /\
    length (pre ++ [x02] ++ post) = 4 /\
    (forall i, i < length pre \/ length pre + 1 <= i ->
       (pre ++ [x02] ++ post) !! i = [x41; x07; x01; x03] !! i) /\
    take 1 (drop (length pre) (pre ++ [x02] ++ post)) = [x02] /\
    disk (apply_patch (lit "f") demo_patch (demo_disk [x41; x07; x01; x03]))
      !! lit "f" = Some (Regular [x41; x07; x01; x03]) /\
    (forall p, p <> lit "f" ++ lit ".patched" ->
       disk (apply_patch (lit "f") demo_patch (demo_disk [x41; x07; x01; x03]))
         !! p = demo_disk [x41; x07; x01; x03] !! p).
Proof.
  apply (single_match_is_patched (lit "f") demo_patch
           (demo_disk [x41; x07; x01; x03]) [x41; x07; x01; x03] [x41]).
  - reflexivity.
  - vm_compute. reflexivity.
  - vm_compute. discriminate.
  - reflexivity.
  - apply contains_occurs. reflexivity.
  - reflexivity.
  - apply contains_false. reflexivity.
Defined.

(** C2, as the code has it.  With equal-length patterns and a buffer that
    holds the encoded label and does not hold the replacement pattern,
    two occurrences of the target pattern that do not overlap make the
    call stop at line 167 with the count it found: no file is opened for
    writing and the disk is unchanged, so the first occurrence is not
    patched either. *)
Theorem ambiguous_match_aborts path d fs data label :
  length (target d) = length (replacement d) ->
  fs !! path = Some (Regular data) ->
  encode_ascii (description d) = inr label ->
  occurs label data ->
  ~ occurs (replacement d) data ->
  occurs_twice (target d) data ->
  result (apply_patch path d fs) =
    Returned (AmbiguousMatch (count data (target d))) /\
  2 <= count data (target d) /\
  python_return (AmbiguousMatch (count data (target d))) = false /\
  disk (apply_patch path d fs) = fs /\
  forallb (fun e => negb (is_open_write e)) (events (apply_patch path d fs))
    = true.
Proof.
  intros Hlen Hread Hlabel Hv Hp Ht.
  assert (target d <> []) as Hne.
  { intros E. apply Hp. rewrite E in Hlen.
    destruct (replacement d); [|done]. by exists [], data. }
  apply (count_two data _ Hne) in Ht.
  pose proof (gate_ambiguous path d fs data label Hlen Hread Hlabel Hv Hp Ht)
    as Hres.
  destruct (apply_patch_frame path d fs) as (_ & Hframe & _).
  destruct (Hframe _ Hres eq_refl) as [Hdisk Hev].
  done.
Qed.

Lemma ambiguous_match_aborts_witness :
  result (apply_patch (lit "f") demo_patch (demo_disk [x41; x01; x01])) =
    Returned (AmbiguousMatch (count [x41; x01; x01] [x01])) /\
  2 <= count [x41; x01; x01] [x01] /\
  python_return (AmbiguousMatch (count [x41; x01; x01] [x01])) = false /\
  disk (apply_patch (lit "f") demo_patch (demo_disk [x41; x01; x01])) =
    demo_disk [x41; x01; x01] /\
  forallb (fun e => negb (is_open_write e))
    (events (apply_patch (lit "f") demo_patch (demo_disk [x41; x01; x01])))
    = true.
Proof.
  apply (ambiguous_match_aborts (lit "f") demo_patch
           (demo_disk [x41; x01; x01]) [x41; x01; x01] [x41]).
  - reflexivity.
  - vm_compute. reflexivity.
  - reflexivity.
  - apply contains_occurs. reflexivity.
  - apply contains_false. reflexivity.
  - by exists [x41], [], [].
Defined.

(** C2, as stated, fails: the buffer [A 01 01 02] holds the label ["A"]
    and the target [01] twice, yet the call stops at line 155 and returns
    [True], because the buffer holds the replacement [02] as well. *)
Lemma ambiguous_match_masked_by_replacement :
  length (target demo_patch) = length (replacement demo_patch) /\
  demo_disk [x41; x01; x01; x02] !! lit "f" = Some (Regular [x41; x01; x01; x02]) /\
  encode_ascii (description demo_patch) = inr [x41] /\
  occurs [x41] [x41; x01; x01; x02] /\
  occurs_twice (target demo_patch) [x41; x01; x01; x02] /\
  count [x41; x01; x01; x02] (target demo_patch) = 2 /\
  result (apply_patch (lit "f") demo_patch (demo_disk [x41; x01; x01; x02])) =
    Returned AlreadyPatched /\
  forall n,
    result (apply_patch (lit "f") demo_patch (demo_disk [x41; x01; x01; x02]))
      <> Returned (AmbiguousMatch n).
Proof.
  assert (result (apply_patch (lit "f") demo_patch
                    (demo_disk [x41; x01; x01; x02])) = Returned AlreadyPatched)
    as E by (vm_compute; reflexivity).
  split; [reflexivity|].
  split; [vm_compute; reflexivity|].
  split; [reflexivity|].
  split; [by exists [], [x01; x01; x02]|].
  split; [by exists [x41], [], [x02]|].
  split; [reflexivity|].
  split; [exact E|].
  intros n. rewrite E. discriminate.
Qed.

(** C3.  With equal-length patterns and a buffer that holds the encoded
    label, a buffer in which the replacement pattern occurs makes the call
    return [True] from line 155, whatever the number of occurrences of
    the target pattern; no file is opened for writing and the disk is
    unchanged. *)
Theorem replacement_present_is_already_patched path d fs data label :
  length (target d) = length (replacement d) ->
  fs !! path = Some (Regular data) ->
  encode_ascii (description d) = inr label ->
  occurs label data ->
  occurs (replacement d) data ->
  result (apply_patch path d fs) = Returned AlreadyPatched /\
  python_return AlreadyPatched = true /\
  disk (apply_patch path d fs) = fs /\
  forallb (fun e => negb (is_open_write e)) (events (apply_patch path d fs))
    = true.
Proof.
  intros Hlen Hread Hlabel Hv Hp.
  pose proof (gate_idempotence path d fs data label Hlen Hread Hlabel Hv Hp)
    as Hres.
  destruct (apply_patch_frame path d fs) as (_ & Hframe & _).
  destruct (Hframe _ Hres eq_refl) as [Hdisk Hev].
  done.
Qed.

Lemma replacement_present_is_already_patched_witness :
  result (apply_patch (lit "f") demo_patch (demo_disk [x41; x02; x03])) =
    Returned AlreadyPatched /\
  python_return AlreadyPatched = true /\
  disk (apply_patch (lit "f") demo_patch (demo_disk [x41; x02; x03])) =
    demo_disk [x41; x02; x03] /\
  forallb (fun e => negb (is_open_write e))
    (events (apply_patch (lit "f") demo_patch (demo_disk [x41; x02; x03])))
    = true.
Proof.
  apply (replacement_present_is_already_patched (lit "f") demo_patch
           (demo_disk [x41; x02; x03]) [x41; x02; x03] [x41]).
  - reflexivity.
  - vm_compute. reflexivity.
  - reflexivity.
  - apply contains_occurs. reflexivity.
  - apply contains_occurs. reflexivity.
Defined.

(** C4, as the code has it.  After a successful call the output file
    holds the input with the first match replaced.  Applying the same
    descriptor to that file stops at line 155 ([AlreadyPatched]) when the
    encoded label still occurs in the output, which is the case whenever
    the label occurs before or behind the replaced range; when the label
    no longer occurs, the second call stops at line 146
    ([VersionMismatch]). *)
Theorem reapply_to_output path d fs out :
  result (apply_patch path d fs) = Returned (Success out) ->
  exists label data pre post,
    fs !! path = Some (Regular data) /\
    data = pre ++ target d ++ post /\
    encode_ascii (description d) = inr label /\
    disk (apply_patch path d fs) !! out =
      Some (Regular (pre ++ replacement d ++ post)) /\
    (occurs label (pre ++ replacement d ++ post) ->
       result (apply_patch out d (disk (apply_patch path d fs))) =
         Returned AlreadyPatched) /\
    (~ occurs label (pre ++ replacement d ++ post) ->
       result (apply_patch out d (disk (apply_patch path d fs))) =
         Returned VersionMismatch) /\
    (occurs label pre \/ occurs label post ->
       occurs label (pre ++ replacement d ++ post)).
Proof.
  intros Hres.
  destruct (success_inv path d fs out Hres)
    as (-> & data & label & Hlen & Hread & Hlabel & Hv & Hp & Hc & Hw).
  destruct (gate_single path d fs data label Hlen Hread Hlabel Hv Hp Hc Hw)
    as [_ Hdisk].
  assert (occurs (target d) data) as Ho.
  { destruct (count_pos data (target d)) as [i Hi]; [lia|].
    apply find_occurs. by eexists. }
  destruct (replace_first_found data (target d) (replacement d) Ho)
    as (pre & post & Hdata & Hrep).
  rewrite Hrep in Hdisk.
  assert (disk (apply_patch path d fs) !! (path ++ lit ".patched") =
            Some (Regular (pre ++ replacement d ++ post))) as Hout
    by (by rewrite Hdisk, lookup_insert_eq).
  exists label, data, pre, post.
  split; [done|]. split; [done|]. split; [done|]. split; [done|].
  split; [|split].
  - intros Hl. eapply gate_idempotence; try done. by exists pre, post.
  - intros Hl. by eapply gate_version.
  - intros [(a & b & ->)|(a & b & ->)].
    + exists a, (b ++ replacement d ++ post). by rewrite <- !app_assoc.
    + exists (pre ++ replacement d ++ a), b. by rewrite <- !app_assoc.
Qed.

Lemma reapply_to_output_witness :
  exists label data pre post,
    demo_disk [x41; x07; x01; x03] !! lit "f" = Some (Regular data) /\
    data = pre ++ target demo_patch ++ post /\
    encode_ascii (description demo_patch) = inr label /\
    disk (apply_patch (lit "f") demo_patch (demo_disk [x41; x07; x01; x03]))
      !! (lit "f" ++ lit ".patched") =
      Some (Regular (pre ++ replacement demo_patch ++ post)) /\
    (occurs label (pre ++ replacement demo_patch ++ post) ->
       result (apply_patch (lit "f" ++ lit ".patched") demo_patch
                 (disk (apply_patch (lit "f") demo_patch
                          (demo_disk [x41; x07; x01; x03])))) =
         Returned AlreadyPatched) /\
    (~ occurs label (pre ++ replacement demo_patch ++ post) ->
       result (apply_patch (lit "f" ++ lit ".patched") demo_patch
                 (disk (apply_patch (lit "f") demo_patch
                          (demo_disk [x41; x07; x01; x03])))) =
         Returned VersionMismatch) /\
    (occurs label pre \/ occurs label post ->
       occurs label (pre ++ replacement demo_patch ++ post)).
Proof.
  apply (reapply_to_output (lit "f") demo_patch
           (demo_disk [x41; x07; x01; x03]) (lit "f" ++ lit ".patched")).
  vm_compute. reflexivity.
Defined.

(** C4, as stated, fails: with the label ["AB"] and the target pattern
    [41 42], which is that label in ASCII, the file [41 42] is patched to
    [58 59]; the second call no longer finds the label and stops at line
    146. *)
Lemma reapply_loses_overlapped_label :
  result (apply_patch (lit "f") overlap_patch (demo_disk [x41; x42])) =
    Returned (Success (lit "f.patched")) /\
  disk (apply_patch (lit "f") overlap_patch (demo_disk [x41; x42]))
    !! lit "f.patched" = Some (Regular [x58; x59]) /\
  result (apply_patch (lit "f.patched") overlap_patch
            (disk (apply_patch (lit "f") overlap_patch (demo_disk [x41; x42]))))
    = Returned VersionMismatch.
Proof. vm_compute. repeat split; reflexivity. Qed.

(** C5.  A descriptor whose patterns differ in length makes the call
    return from line 123 on every disk alike: all it does is print, it
    opens no file for reading or writing, and the disk is unchanged. *)
Theorem length_mismatch_is_rejected_before_io path d fs :
  length (target d) <> length (replacement d) ->
  result (apply_patch path d fs) = Returned InvalidDescriptor /\
  python_return InvalidDescriptor = false /\
  disk (apply_patch path d fs) = fs /\
  forallb is_print (events (apply_patch path d fs)) = true /\
  (forall fs',
     result (apply_patch path d fs') = result (apply_patch path d fs) /\
     events (apply_patch path d fs') = events (apply_patch path d fs)).
Proof.
  intros H. destruct (length_gate_run path d H) as (report & Hrep & Hrun).
  rewrite Hrun. cbn [result disk events].
  repeat split; try done; by rewrite Hrun.
Qed.

Lemma length_mismatch_is_rejected_before_io_witness :
  result (apply_patch (lit "f") (Patch (lit "A") [x01] [x02; x03]) ∅) =
    Returned InvalidDescriptor /\
  python_return InvalidDescriptor = false /\
  disk (apply_patch (lit "f") (Patch (lit "A") [x01] [x02; x03]) ∅) = ∅ /\
  forallb is_print
    (events (apply_patch (lit "f") (Patch (lit "A") [x01] [x02; x03]) ∅)) = true /\
  (forall fs',
     result (apply_patch (lit "f") (Patch (lit "A") [x01] [x02; x03]) fs') =
       result (apply_patch (lit "f") (Patch (lit "A") [x01] [x02; x03]) ∅) /\
     events (apply_patch (lit "f") (Patch (lit "A") [x01] [x02; x03]) fs') =
       events (apply_patch (lit "f") (Patch (lit "A") [x01] [x02; x03]) ∅)).
Proof.
  apply (length_mismatch_is_rejected_before_io (lit "f")
           (Patch (lit "A") [x01] [x02; x03]) ∅).
  simpl. lia.
Defined.

(** C6.  With equal-length patterns and a readable file whose buffer does
    not hold the encoded label, the call returns from line 146: it prints
    the version-mismatch line and not the line of a missing target
    pattern, which in turn is what every call returning from line 161
    prints; the disk is unchanged. *)
Theorem missing_label_is_version_mismatch path d fs data label :
  length (target d) = length (replacement d) ->
  fs !! path = Some (Regular data) ->
  encode_ascii (description d) = inr label ->
  ~ occurs label data ->
  result (apply_patch path d fs) = Returned VersionMismatch /\
  VersionMismatch <> PatternNotFound /\
  python_return VersionMismatch = false /\
  In version_mismatch_banner (events (apply_patch path d fs)) /\
  ~ In pattern_not_found_banner (events (apply_patch path d fs)) /\
  (forall path' d' fs',
     result (apply_patch path' d' fs') = Returned PatternNotFound ->
     In pattern_not_found_banner (events (apply_patch path' d' fs')) /\
     ~ In version_mismatch_banner (events (apply_patch path' d' fs'))) /\
  disk (apply_patch path d fs) = fs.
Proof.
  intros Hlen Hread Hlabel Hv.
  destruct (gate_version path d fs data label Hlen Hread Hlabel Hv)
    as (Hres & Hin & Hnin).
  destruct (apply_patch_frame path d fs) as (_ & Hframe & _).
  destruct (Hframe _ Hres eq_refl) as [Hdisk _].
  repeat split; try done. all: intros; by eapply not_found_banner.
Qed.

Lemma missing_label_is_version_mismatch_witness :
  result (apply_patch (lit "f") demo_patch (demo_disk [x01; x03])) =
    Returned VersionMismatch /\
  VersionMismatch <> PatternNotFound /\
  python_return VersionMismatch = false /\
  In version_mismatch_banner
    (events (apply_patch (lit "f") demo_patch (demo_disk [x01; x03]))) /\
  ~ In pattern_not_found_banner
    (events (apply_patch (lit "f") demo_patch (demo_disk [x01; x03]))) /\
  (forall path' d' fs',
     result (apply_patch path' d' fs') = Returned PatternNotFound ->
     In pattern_not_found_banner (events (apply_patch path' d' fs')) /\
     ~ In version_mismatch_banner (events (apply_patch path' d' fs'))) /\
  disk (apply_patch (lit "f") demo_patch (demo_disk [x01; x03])) =
    demo_disk [x01; x03].
Proof.
  apply (missing_label_is_version_mismatch (lit "f") demo_patch
           (demo_disk [x01; x03]) [x01; x03] [x41]).
  - reflexivity.
  - vm_compute. reflexivity.
  - reflexivity.
  - apply contains_false. reflexivity.
Defined.

(** C7.  Past the length, version-marker, already-patched and
    single-occurrence gates, replacing the occurrence yields a buffer
    different from the original, so this call does not return from line
    173; indeed no call does, whatever its arguments. *)
Theorem no_effective_change_is_unreachable path d fs data label :
  length (target d) = length (replacement d) ->
  fs !! path = Some (Regular data) ->
  encode_ascii (description d) = inr label ->
  occurs label data ->
  ~ occurs (replacement d) data ->
  count data (target d) = 1 ->
  replace_first data (target d) (replacement d) <> data /\
  result (apply_patch path d fs) <> Returned NoEffectiveChange /\
  (forall path' d' fs',
     result (apply_patch path' d' fs') <> Returned NoEffectiveChange).
Proof.
  intros _ _ _ _ Hp Hc. split; [|split].
  - apply replace_first_changes; [|done].
    destruct (count_pos data (target d)) as [i Hi]; [lia|].
    apply find_occurs. by eexists.
  - apply never_unchanged.
  - intros. apply never_unchanged.
Qed.

Lemma no_effective_change_is_unreachable_witness :
  replace_first [x41; x07; x01; x03] [x01] [x02] <> [x41; x07; x01; x03] /\
  result (apply_patch (lit "f") demo_patch (demo_disk [x41; x07; x01; x03]))
    <> Returned NoEffectiveChange /\
  (forall path' d' fs',
     result (apply_patch path' d' fs') <> Returned NoEffectiveChange).
Proof.
  apply (no_effective_change_is_unreachable (lit "f") demo_patch
           (demo_disk [x41; x07; x01; x03]) [x41; x07; x01; x03] [x41]).
  - reflexivity.
  - vm_compute. reflexivity.
  - reflexivity.
  - apply contains_occurs. reflexivity.
  - apply contains_false. reflexivity.
  - reflexivity.
Defined.

(** C8.  A call that returns from one of the failure sites before line
    175 (invalid descriptor, unreadable file, version mismatch, pattern
    not found, ambiguous match, no effective change) leaves the disk as
    it found it and opens no file for writing; and no call, however it
    ends, opens the original path for writing or changes what that path
    holds. *)
Theorem failure_paths_touch_no_file path d fs r :
  result (apply_patch path d fs) = Returned r ->
  fails_before_write r = true ->
  disk (apply_patch path d fs) = fs /\
  forallb (fun e => negb (is_open_write e)) (events (apply_patch path d fs))
    = true /\
  (forall path' d' fs',
     ~ In (OpenWrite path') (events (apply_patch path' d' fs')) /\
     disk (apply_patch path' d' fs') !! path' = fs' !! path').
Proof.
  intros Hres Hf%fails_before_write_closed.
  destruct (apply_patch_frame path d fs) as (_ & Hframe & _).
  destruct (Hframe _ Hres Hf) as [Hdisk Hev].
  split; [done|]. split; [done|].
  intros path' d' fs'.
  destruct (apply_patch_frame path' d' fs') as (Hw & _ & _ & Hother).
  split.
  - intros Hin%Hw. symmetry in Hin. by apply patched_path_fresh in Hin.
  - apply Hother. intros E. symmetry in E. by apply patched_path_fresh in E.
Qed.

Lemma failure_paths_touch_no_file_witness :
  disk (apply_patch (lit "f") demo_patch (demo_disk [x41; x03])) =
    demo_disk [x41; x03] /\
  forallb (fun e => negb (is_open_write e))
    (events (apply_patch (lit "f") demo_patch (demo_disk [x41; x03]))) = true /\
  (forall path' d' fs',
     ~ In (OpenWrite path') (events (apply_patch path' d' fs')) /\
     disk (apply_patch path' d' fs') !! path' = fs' !! path').
Proof.
  apply (failure_paths_touch_no_file (lit "f") demo_patch
           (demo_disk [x41; x03]) PatternNotFound).
  - vm_compute. reflexivity.
  - reflexivity.
Defined.

(** C9.  The catalog has nine entries; in each the target and the
    replacement have the same length, 17 bytes in the four U-2023 entries
    and 11 bytes in the five W-2024 and X-2025 entries, so no call with a
    catalog entry returns from line 123. *)
Theorem catalog_respects_length_parity :
  description <$> PATCH_CONFIG =
    lit <$> ["U-2023.03-SP1"; "U-2023.03-SP2"; "U-2023.12-SP1";
             "U-2023.12-SP2"; "W-2024.09"; "W-2024.09-SP1"; "W-2024.09-SP2";
             "X-2025.06"; "X-2025.06-SP1"]%string /\
  Forall (fun p => length (target p) = length (replacement p)) PATCH_CONFIG /\
  Forall (fun p => length (target p) = 17 /\ length (replacement p) = 17)
    (take 4 PATCH_CONFIG) /\
  Forall (fun p => length (target p) = 11 /\ length (replacement p) = 11)
    (drop 4 PATCH_CONFIG) /\
  Forall (fun p => forall path fs,
            result (apply_patch path p fs) <> Returned InvalidDescriptor)
    PATCH_CONFIG.
Proof.
  assert (Forall (fun p => length (target p) = length (replacement p))
            PATCH_CONFIG) as Hpar
    by (unfold PATCH_CONFIG; repeat constructor).
  split; [reflexivity|]. split; [exact Hpar|].
  split; [unfold PATCH_CONFIG; simpl; repeat constructor|].
  split; [unfold PATCH_CONFIG; simpl; repeat constructor|].
  eapply Forall_impl; [exact Hpar|].
  intros p Hp path fs Hres. by apply invalid_inv in Hres.
Qed.

(** C10.  With equal-length patterns and a readable file, a label with a
    code point above 127 makes the call end in an uncaught
    [UnicodeEncodeError]: it returns from no site at all.  The file has
    been read by then; the disk is unchanged. *)
Theorem non_ascii_label_raises path d fs data :
  length (target d) = length (replacement d) ->
  fs !! path = Some (Regular data) ->
  Exists (fun c => (128 <= c)%N) (description d) ->
  exists pos,
    result (apply_patch path d fs) = Raised (UnicodeEncodeError pos) /\
    (forall r, result (apply_patch path d fs) <> Returned r) /\
    In (OpenRead path) (events (apply_patch path d fs)) /\
    disk (apply_patch path d fs) = fs.
Proof.
  intros Hlen Hread Hex.
  destruct (encode_ascii_from_inl 0 _ Hex) as [pos Hpos].
  exists pos. rewrite (gate_encode path d fs data Hlen Hread pos Hpos).
  cbn [result disk events]. repeat split; try done.
  simpl. tauto.
Qed.

Lemma non_ascii_label_raises_witness :
  exists pos,
    result (apply_patch (lit "f") latin1_patch (demo_disk [x01])) =
      Raised (UnicodeEncodeError pos) /\
    (forall r, result (apply_patch (lit "f") latin1_patch (demo_disk [x01]))
               <> Returned r) /\
    In (OpenRead (lit "f"))
      (events (apply_patch (lit "f") latin1_patch (demo_disk [x01]))) /\
    disk (apply_patch (lit "f") latin1_patch (demo_disk [x01])) =
      demo_disk [x01].
Proof.
  apply (non_ascii_label_raises (lit "f") latin1_patch (demo_disk [x01]) [x01]).
  - reflexivity.
  - vm_compute. reflexivity.
  - apply Exists_cons_tl, Exists_cons_hd. vm_compute. discriminate.
Defined.

(** ** Stepping through a computation *)

Lemma bind_print {B} out msg (k : unit -> IO B) fs :
  (print out msg ≫= k) fs = after [Print out msg] (k tt fs).
Proof. reflexivity. Qed.

Lemma bind_read_file {B} p (k : oserror + bytes -> IO B) fs :
  (read_file p ≫= k) fs =
    after [OpenRead p]
      (k match fs !! p with
         | None => inl FileNotFoundError
         | Some Directory => inl IsADirectoryError
         | Some (Regular content) => inr content
         end fs).
Proof.
  unfold mbind, io_bind, bind, read_file.
  by destruct (fs !! p) as [[]|].
Qed.

Lemma bind_write_file {B} p data (k : oserror + unit -> IO B) fs :
  (write_file p data ≫= k) fs =
    after [OpenWrite p]
      match fs !! p with
      | Some Directory => k (inl IsADirectoryError) fs
      | _ => k (inr tt) (<[p := Regular data]> fs)
      end.
Proof.
  unfold mbind, io_bind, bind, write_file.
  by destruct (fs !! p) as [[]|].
Qed.

Lemma bind_encode {B} s (k : bytes -> IO B) fs :
  (encode s ≫= k) fs =
    match encode_ascii s with
    | inr b => after [] (k b fs)
    | inl pos => Run (Raised (UnicodeEncodeError pos)) fs []
    end.
Proof.
  unfold mbind, io_bind, bind, encode.
  by destruct (encode_ascii s).
Qed.

(** One step of a computation applied to a disk: a statement is run, or
    the innermost undecided test is split. *)
Ltac io_step :=
  first
    [ rewrite bind_print
    | rewrite bind_read_file
    | rewrite bind_write_file
    | rewrite bind_encode
    | progress cbv beta iota zeta delta [negb]
    | inner_case ].

Ltac io_paths := repeat io_step; cbv [ret mret io_ret].

(** The same along the path the hypotheses select. *)
Ltac io_follow :=
  repeat first
    [ rewrite bind_print
    | rewrite bind_read_file
    | rewrite bind_write_file
    | rewrite bind_encode
    | match goal with
      | H : ?x = _ |- context [match ?x with _ => _ end] => rewrite H
      end
    | progress cbv beta iota zeta delta [negb] ];
  cbv [ret mret io_ret].

(** ** Further results on [apply_patch] *)

(** [find] returns the lowest index: the pattern starts nowhere before
    it. *)
Lemma find_lowest (data sub : bytes) i j :
  find data sub = Some i -> j < i -> startswith (drop j data) sub = false.
Proof.
  revert i j; induction data as [|b data IH]; intros i j; simpl.
  - destruct (startswith [] sub); [|done]. intros [= <-]. lia.
  - destruct (startswith (b :: data) sub) eqn:E; [intros [= <-]; lia|].
    destruct (find data sub) as [k|] eqn:F; simpl; [|done].
    intros [= <-] Hj. destruct j as [|j]; [done|].
    simpl. eapply IH; [done|lia].
Qed.

Lemma find_bound (data sub : bytes) i :
  find data sub = Some i -> i + length sub <= length data.
Proof.
  revert i; induction data as [|b data IH]; intros i; simpl.
  - destruct (startswith [] sub) eqn:E; [|done]. intros [= <-].
    destruct sub; [simpl; lia|done].
  - destruct (startswith (b :: data) sub) eqn:E.
    + intros [= <-]. destruct (startswith_inv _ _ E) as [post Hp].
      apply (f_equal length) in Hp. rewrite length_app in Hp. simpl in *. lia.
    + destruct (find data sub) as [k|] eqn:F; simpl; [|done].
      intros [= <-]. specialize (IH k eq_refl). lia.
Qed.

Lemma occurs_of_count (data sub : bytes) : 0 < count data sub -> occurs sub data.
Proof.
  intros H. destruct (count_pos data sub H) as [i Hi].
  apply find_occurs. by eexists.
Qed.

(** Which disk a run leaves: the one it found, unless it returns from
    line 180. *)
Lemma disk_cases path d fs :
  disk (apply_patch path d fs) = fs \/
  result (apply_patch path d fs) = Returned (Success (path ++ lit ".patched")).
Proof.
  unfold apply_patch. io_paths. all: cbn [after result disk]; auto.
Qed.

Lemma already_inv path d fs :
  result (apply_patch path d fs) = Returned AlreadyPatched ->
  exists data label,
    length (target d) = length (replacement d) /\
    fs !! path = Some (Regular data) /\
    encode_ascii (description d) = inr label /\
    occurs label data /\
    occurs (replacement d) data.
Proof.
  unfold apply_patch. io_paths. all: cbn [after result]; intros [=].
  eexists _, _.
  repeat match goal with
    | H : (_ =? _) = true |- _ => apply Nat.eqb_eq in H
    | H : contains _ _ = true |- _ => apply contains_occurs in H
    end.
  repeat split; try done; congruence.
Qed.

(** Under the hypotheses of the single-match gate the run is the same on
    every disk, up to the disk itself. *)
Lemma gate_single_uniform path d data label :
  length (target d) = length (replacement d) ->
  encode_ascii (description d) = inr label ->
  occurs label data ->
  ~ occurs (replacement d) data ->
  count data (target d) = 1 ->
  exists ev,
    forall fs,
      fs !! path = Some (Regular data) ->
      fs !! (path ++ lit ".patched") <> Some Directory ->
      apply_patch path d fs =
        Run (Returned (Success (path ++ lit ".patched")))
          (<[path ++ lit ".patched" :=
               Regular (replace_first data (target d) (replacement d))]> fs)
          ev.
Proof.
  intros Hlen%Nat.eqb_eq Hlabel Hv%contains_occurs Hp Hc.
  assert (occurs (target d) data) as Ho by (apply occurs_of_count; lia).
  pose proof (replace_first_changes _ _ _ Ho Hp) as Hne.
  apply (bool_decide_eq_false_2 _) in Hne.
  apply contains_false in Hp.
  assert ((count data (target d) =? 0) = false) as H0 by by rewrite Hc.
  assert ((1 <? count data (target d)) = false) as H1 by by rewrite Hc.
  eexists. intros fs Hread Hw. unfold apply_patch.
  repeat first
    [ rewrite bind_print | rewrite bind_read_file | rewrite bind_write_file
    | rewrite bind_encode | rewrite Hlen | rewrite Hread | rewrite Hlabel
    | rewrite Hv | rewrite Hp | rewrite H0 | rewrite H1 | rewrite Hne
    | progress cbv beta iota zeta delta [negb] ].
  destruct (fs !! (path ++ lit ".patched")) as [[]|]; [|done|];
    cbv [after ret result disk events app]; reflexivity.
Qed.

(** X1.  With equal-length patterns and a buffer that holds the encoded
    label but neither the replacement nor the target pattern, the call
    returns [False] from line 161 after printing the line of that site;
    the disk is unchanged and nothing is opened for writing. *)
Theorem absent_target_is_pattern_not_found path d fs data label :
  length (target d) = length (replacement d) ->
  fs !! path = Some (Regular data) ->
  encode_ascii (description d) = inr label ->
  occurs label data ->
  ~ occurs (replacement d) data ->
  ~ occurs (target d) data ->
  result (apply_patch path d fs) = Returned PatternNotFound /\
  python_return PatternNotFound = false /\
  In pattern_not_found_banner (events (apply_patch path d fs)) /\
  disk (apply_patch path d fs) = fs /\
  forallb (fun e => negb (is_open_write e)) (events (apply_patch path d fs))
    = true.
Proof.
  intros Hlen Hread Hlabel Hv Hp Ht.
  pose proof (gate_not_found path d fs data label Hlen Hread Hlabel Hv Hp Ht)
    as Hres.
  destruct (not_found_banner path d fs Hres) as [Hb _].
  destruct (apply_patch_frame path d fs) as (_ & Hframe & _).
  destruct (Hframe _ Hres eq_refl) as [Hdisk Hev].
  done.
Qed.

Lemma absent_target_is_pattern_not_found_witness :
  result (apply_patch (lit "f") demo_patch (demo_disk [x41; x03])) =
    Returned PatternNotFound /\
  python_return PatternNotFound = false /\
  In pattern_not_found_banner
    (events (apply_patch (lit "f") demo_patch (demo_disk [x41; x03]))) /\
  disk (apply_patch (lit "f") demo_patch (demo_disk [x41; x03])) =
    demo_disk [x41; x03] /\
  forallb (fun e => negb (is_open_write e))
    (events (apply_patch (lit "f") demo_patch (demo_disk [x41; x03]))) = true.
Proof.
  apply (absent_target_is_pattern_not_found (lit "f") demo_patch
           (demo_disk [x41; x03]) [x41; x03] [x41]).
  - reflexivity.
  - vm_compute. reflexivity.
  - reflexivity.
  - apply contains_occurs. reflexivity.
  - apply contains_false. reflexivity.
  - apply contains_false. reflexivity.
Defined.



(** X3.  When every gate is passed but the [.patched] path names a
    directory, the call returns [False] from line 183: the output was
    opened for writing once, after the input was read, and the disk is
    unchanged. *)
Theorem directory_in_the_way_fails_the_write path d fs data label :
  length (target d) = length (replacement d) ->
  fs !! path = Some (Regular data) ->
  encode_ascii (description d) = inr label ->
  occurs label data ->
  ~ occurs (replacement d) data ->
  count data (target d) = 1 ->
  fs !! (path ++ lit ".patched") = Some Directory ->
  result (apply_patch path d fs) =
    Returned (OutputWriteFailed IsADirectoryError) /\
  python_return (OutputWriteFailed IsADirectoryError) = false /\
  file_ops (events (apply_patch path d fs)) =
    [OpenRead path; OpenWrite (path ++ lit ".patched")] /\
  disk (apply_patch path d fs) = fs.
Proof.
  intros Hlen%Nat.eqb_eq Hread Hlabel Hv%contains_occurs Hp Hc Hw.
  assert (occurs (target d) data) as Ho by (apply occurs_of_count; lia).
  pose proof (replace_first_changes _ _ _ Ho Hp) as Hne.
  apply (bool_decide_eq_false_2 _) in Hne.
  apply contains_false in Hp.
  assert ((count data (target d) =? 0) = false) as H0 by by rewrite Hc.
  assert ((1 <? count data (target d)) = false) as H1 by by rewrite Hc.
  unfold apply_patch. io_follow. by cbn [after result disk events app].
Qed.

Lemma directory_in_the_way_fails_the_write_witness :
  result (apply_patch (lit "f") demo_patch
            (<[lit "f.patched" := Directory]> (demo_disk [x41; x01]))) =
    Returned (OutputWriteFailed IsADirectoryError) /\
  python_return (OutputWriteFailed IsADirectoryError) = false /\
  file_ops (events (apply_patch (lit "f") demo_patch
                      (<[lit "f.patched" := Directory]> (demo_disk [x41; x01])))) =
    [OpenRead (lit "f"); OpenWrite (lit "f" ++ lit ".patched")] /\
  disk (apply_patch (lit "f") demo_patch
          (<[lit "f.patched" := Directory]> (demo_disk [x41; x01]))) =
    <[lit "f.patched" := Directory]> (demo_disk [x41; x01]).
Proof.
  apply (directory_in_the_way_fails_the_write (lit "f") demo_patch
           (<[lit "f.patched" := Directory]> (demo_disk [x41; x01]))
           [x41; x01] [x41]).
  - reflexivity.
  - vm_compute. reflexivity.
  - reflexivity.
  - apply contains_occurs. reflexivity.
  - apply contains_false. reflexivity.
  - reflexivity.
  - vm_compute. reflexivity.
Defined.


(** X5.  The call returns from line 155 exactly when the patterns have
    equal length and the path names a regular file whose buffer holds
    both the encoded label and the replacement pattern. *)
Theorem already_patched_characterised path d fs :
  result (apply_patch path d fs) = Returned AlreadyPatched <->
  length (target d) = length (replacement d) /\
  exists data label,
    fs !! path = Some (Regular data) /\
    encode_ascii (description d) = inr label /\
    occurs label data /\
    occurs (replacement d) data.
Proof.
  split.
  - intros Hres.
    destruct (already_inv path d fs Hres)
      as (data & label & Hlen & Hread & Hlabel & Hv & Hp).
    split; [done|]. by exists data, label.
  - intros (Hlen & data & label & Hread & Hlabel & Hv & Hp).
    eapply gate_idempotence; eassumption.
Qed.

(** X6.  Whatever its arguments, a call opens at most two files, each at
    most once: the input for reading and then, possibly, the [.patched]
    sibling for writing.  It never writes before it has read and never
    opens any other path. *)
Theorem files_opened_by_a_call path d fs :
  file_ops (events (apply_patch path d fs)) = [] \/
  file_ops (events (apply_patch path d fs)) = [OpenRead path] \/
  file_ops (events (apply_patch path d fs)) =
    [OpenRead path; OpenWrite (path ++ lit ".patched")].
Proof.
  unfold apply_patch. io_paths. all: cbn [after events app]; auto.
Qed.

(** X7.  Running the same call again on the disk the first run left gives
    the same result and the same events and leaves that disk as it is. *)
Theorem rerun_changes_nothing path d fs :
  apply_patch path d (disk (apply_patch path d fs)) = apply_patch path d fs.
Proof.
  destruct (disk_cases path d fs) as [E|Hres].
  - by rewrite E.
  - destruct (success_inv path d fs _ Hres)
      as (_ & data & label & Hlen & Hread & Hlabel & Hv & Hp & Hc & Hw).
    destruct (gate_single_uniform path d data label Hlen Hlabel Hv Hp Hc)
      as [ev Hrun].
    rewrite (Hrun fs Hread Hw). cbn [disk]. rewrite Hrun.
    + by rewrite insert_insert_eq.
    + rewrite lookup_insert_ne; [done|apply patched_path_fresh].
    + by rewrite lookup_insert_eq.
Qed.

(** X8.  A descriptor whose replacement is its target never makes the
    call write: on a buffer with the encoded label the call returns from
    line 155 if the pattern occurs and from line 161 if it does not, and
    no call with such a descriptor returns from line 180. *)
Theorem identical_patterns_never_write path d fs data label :
  replacement d = target d ->
  fs !! path = Some (Regular data) ->
  encode_ascii (description d) = inr label ->
  occurs label data ->
  result (apply_patch path d fs) =
    Returned (if contains data (target d) then AlreadyPatched
              else PatternNotFound) /\
  disk (apply_patch path d fs) = fs /\
  (forall path' fs' out,
     result (apply_patch path' d fs') <> Returned (Success out)).
Proof.
  intros Heq Hread Hlabel Hv.
  assert (length (target d) = length (replacement d)) as Hlen by by rewrite Heq.
  assert (forall path' fs' out,
            result (apply_patch path' d fs') <> Returned (Success out)) as Hno.
  { intros path' fs' out Hres.
    destruct (success_inv path' d fs' out Hres)
      as (_ & data' & _ & _ & _ & _ & _ & Hp & Hc & _).
    apply Hp. rewrite Heq. apply occurs_of_count. lia. }
  split; [|split; [|done]].
  - destruct (contains data (target d)) eqn:E.
    + apply contains_occurs in E.
      eapply gate_idempotence; try done. by rewrite Heq.
    + apply contains_false in E.
      eapply gate_not_found; try done. by rewrite Heq.
  - destruct (disk_cases path d fs) as [E|Hres]; [done|]. by apply Hno in Hres.
Qed.

Lemma identical_patterns_never_write_witness :
  result (apply_patch (lit "f") (Patch (lit "A") [x01] [x01])
            (demo_disk [x41; x01])) =
    Returned (if contains [x41; x01] [x01] then AlreadyPatched
              else PatternNotFound) /\
  disk (apply_patch (lit "f") (Patch (lit "A") [x01] [x01])
          (demo_disk [x41; x01])) = demo_disk [x41; x01] /\
  (forall path' fs' out,
     result (apply_patch path' (Patch (lit "A") [x01] [x01]) fs')
       <> Returned (Success out)).
Proof.
  apply (identical_patterns_never_write (lit "f") (Patch (lit "A") [x01] [x01])
           (demo_disk [x41; x01]) [x41; x01] [x41]).
  - reflexivity.
  - vm_compute. reflexivity.
  - reflexivity.
  - apply contains_occurs. reflexivity.
Defined.

(** X9.  An empty target pattern never leads to a patch: with an empty
    replacement every readable file that holds the encoded label is
    reported as already patched (line 155), the count of [len + 1]
    occurrences is never looked at; with any other replacement the call
    stops at line 123. *)
Theorem empty_target_never_patches path d fs :
  target d = [] ->
  (replacement d <> [] ->
     result (apply_patch path d fs) = Returned InvalidDescriptor) /\
  (forall data label,
     replacement d = [] ->
     fs !! path = Some (Regular data) ->
     encode_ascii (description d) = inr label ->
     occurs label data ->
     result (apply_patch path d fs) = Returned AlreadyPatched /\
     count data (target d) = S (length data)) /\
  disk (apply_patch path d fs) = fs.
Proof.
  intros Ht. split; [|split].
  - intros Hr. apply gate_length. rewrite Ht. by destruct (replacement d).
  - intros data label Hr Hread Hlabel Hv. split; [|by rewrite Ht].
    eapply gate_idempotence; try done; [by rewrite Ht, Hr|].
    rewrite Hr. by exists [], data.
  - destruct (disk_cases path d fs) as [E|Hres]; [done|].
    destruct (success_inv path d fs _ Hres)
      as (_ & data & _ & Hlen & _ & _ & _ & Hp & _).
    destruct Hp. rewrite Ht in Hlen. destruct (replacement d); [|done].
    by exists [], data.
Qed.

Lemma empty_target_never_patches_witness :
  (replacement (Patch (lit "A") [] []) <> [] ->
     result (apply_patch (lit "f") (Patch (lit "A") [] []) (demo_disk [x41])) =
       Returned InvalidDescriptor) /\
  (forall data label,
     replacement (Patch (lit "A") [] []) = [] ->
     demo_disk [x41] !! lit "f" = Some (Regular data) ->
     encode_ascii (description (Patch (lit "A") [] [])) = inr label ->
     occurs label data ->
     result (apply_patch (lit "f") (Patch (lit "A") [] []) (demo_disk [x41])) =
       Returned AlreadyPatched /\
     count data (target (Patch (lit "A") [] [])) = S (length data)) /\
  disk (apply_patch (lit "f") (Patch (lit "A") [] []) (demo_disk [x41])) =
    demo_disk [x41].
Proof.
  apply (empty_target_never_patches (lit "f") (Patch (lit "A") [] [])
           (demo_disk [x41])).
  reflexivity.
Defined.

(** X10.  A successful call patches the leftmost occurrence: the output
    is the input with the bytes at [i .. i + len(target)) replaced, where
    the target pattern starts at index [i] and at no lower index, even
    when a later occurrence overlaps the one replaced. *)
Theorem leftmost_occurrence_is_patched path d fs out :
  result (apply_patch path d fs) = Returned (Success out) ->
  exists data i,
    fs !! path = Some (Regular data) /\
    startswith (drop i data) (target d) = true /\
    (forall j, j < i -> startswith (drop j data) (target d) = false) /\
    i + length (target d) <= length data /\
    disk (apply_patch path d fs) !! out =
      Some (Regular (take i data ++ replacement d
                       ++ drop (i + length (target d)) data)).
Proof.
  intros Hres.
  destruct (success_inv path d fs out Hres)
    as (-> & data & label & Hlen & Hread & Hlabel & Hv & Hp & Hc & Hw).
  destruct (gate_single path d fs data label Hlen Hread Hlabel Hv Hp Hc Hw)
    as [_ Hdisk].
  destruct (count_pos data (target d)) as [i Hi]; [lia|].
  pose proof (find_Some _ _ _ Hi) as Hsplit.
  pose proof (find_bound _ _ _ Hi) as Hle.
  exists data, i. split; [done|]. split; [|split; [|split; [done|]]].
  - rewrite Hsplit at 1. rewrite drop_app_length'; [apply startswith_app|].
    rewrite length_take. lia.
  - intros j Hj. by eapply find_lowest.
  - rewrite Hdisk, lookup_insert_eq. unfold replace_first. by rewrite Hi.
Qed.

Lemma leftmost_occurrence_is_patched_witness :
  exists data i,
    demo_disk [x41; x01; x01; x01] !! lit "f" = Some (Regular data) /\
    startswith (drop i data) [x01; x01] = true /\
    (forall j, j < i -> startswith (drop j data) [x01; x01] = false) /\
    i + 2 <= length data /\
    disk (apply_patch (lit "f") (Patch (lit "A") [x01; x01] [x02; x02])
            (demo_disk [x41; x01; x01; x01])) !! (lit "f" ++ lit ".patched") =
      Some (Regular (take i data ++ [x02; x02] ++ drop (i + 2) data)).
Proof.
  apply (leftmost_occurrence_is_patched (lit "f")
           (Patch (lit "A") [x01; x01] [x02; x02])
           (demo_disk [x41; x01; x01; x01]) (lit "f" ++ lit ".patched")).
  vm_compute. reflexivity.
Defined.

(** ** Results on the front end *)

Lemma bind_run {A B} (c : IO A) (k : A -> IO B) fs a fs' ev :
  c fs = Run (Returned a) fs' ev -> (c ≫= k) fs = after ev (k a fs').
Proof. intros E. unfold mbind, io_bind, bind. by rewrite E. Qed.

Lemma print_entries_run i config fs :
  print_entries i config fs =
    Run (Returned tt) fs (imap (fun j => menu_line (i + j)) config).
Proof.
  revert i; induction config as [|p config IH]; intros i; [done|].
  cbn [print_entries]. rewrite bind_print, IH. unfold after. cbn.
  unfold menu_line at 2. rewrite Nat.add_0_r. do 2 f_equal.
  apply imap_ext. intros j q _. simpl. f_equal. lia.
Qed.

(** X11.  The menu is three header lines followed, for an empty catalog,
    by the notice that nothing is configured and, otherwise, by one line
    per entry in catalog order, numbered from 1, and the closing rule.
    Showing it opens no file and leaves the disk alone. *)
Theorem menu_lists_the_catalog config fs :
  display_patches_of config fs =
    Run (Returned tt) fs
      (menu_header ++
       match config with
       | [] => [no_patches_notice]
       | _ :: _ => imap menu_line config ++ [menu_footer]
       end).
Proof.
  unfold display_patches_of. rewrite !bind_print.
  destruct config as [|p config]; [done|].
  rewrite (bind_run _ _ _ _ _ _ (print_entries_run 0 (p :: config) fs)).
  reflexivity.
Qed.

Section Selecting.

Context `{PyLib}.
Implicit Types (config : list patch) (keys : list key).

Lemma retry_chosen notice s : chosen (retry notice s) = chosen s.
Proof. done. Qed.

(** One line that is turned down costs a prompt and a notice. *)
Lemma select_loop_turned_down config text keys :
  turned_down (length config) text ->
  select_loop config (Line text :: keys) =
    retry (notice_for (length config) text) (select_loop config keys).
Proof.
  unfold turned_down, notice_for. cbn [select_loop].
  destruct (int text) as [n|]; [|done]. intros Hn.
  destruct (0 <=? n - 1)%Z eqn:E1; [|done].
  destruct (n - 1 <? Z.of_nat (length config))%Z eqn:E2; [|done]. lia.
Qed.

Lemma select_loop_skips config bad keys :
  Forall (turned_down (length config)) bad ->
  select_loop config ((Line <$> bad) ++ keys) =
    Selection (chosen (select_loop config keys))
      (unread (select_loop config keys))
      (notices (length config) bad ++ said (select_loop config keys)).
Proof.
  induction 1 as [|text bad Ht _ IH].
  - change ((Line <$> []) ++ keys) with keys.
    by destruct (select_loop config keys).
  - change ((Line <$> text :: bad) ++ keys)
      with (Line text :: (Line <$> bad) ++ keys).
    rewrite select_loop_turned_down by done. by rewrite IH.
Qed.

Lemma select_loop_accepts config text n p keys :
  int text = Some n ->
  (1 <= n <= Z.of_nat (length config))%Z ->
  config !! Z.to_nat (n - 1) = Some p ->
  select_loop config (Line text :: keys) =
    Selection (Chosen p) keys [Asked select_prompt].
Proof.
  intros Hi Hn Hp. cbn [select_loop]. rewrite Hi. cbv zeta.
  destruct (0 <=? n - 1)%Z eqn:E1; [|lia].
  destruct (n - 1 <? Z.of_nat (length config))%Z eqn:E2; [|lia].
  cbn [andb]. by rewrite Hp.
Qed.

(** X12.  Among the lines typed, the first that [int] reads as a number
    between 1 and the size of the catalog decides: the entry at that
    position is returned, the lines behind it are left unread, and each
    line before it was answered by a prompt and a notice.  Zero and
    negative numbers count as out of range. *)
Theorem first_valid_line_selects config bad text n p keys :
  length config <> 1 ->
  Forall (turned_down (length config)) bad ->
  int text = Some n ->
  (1 <= n <= Z.of_nat (length config))%Z ->
  config !! Z.to_nat (n - 1) = Some p ->
  select_patch_of config ((Line <$> bad) ++ Line text :: keys) =
    Selection (Chosen p) keys
      (notices (length config) bad ++ [Asked select_prompt]).
Proof.
  intros Hlen Hbad Hi Hn Hp.
  assert (select_patch_of config ((Line <$> bad) ++ Line text :: keys) =
          select_loop config ((Line <$> bad) ++ Line text :: keys)) as ->.
  { unfold select_patch_of. by destruct config as [|? [|? ?]]. }
  rewrite select_loop_skips by done.
  by rewrite (select_loop_accepts config text n p keys Hi Hn Hp).
Qed.

(** X13.  The loop gives up exactly when the input ends, or Ctrl-C is
    pressed, before any line was accepted: it leaves through
    [sys.exit(1)] if and only if the keys are lines that are all turned
    down, followed by nothing or by an interrupt. *)
Theorem selection_is_cancelled_only_by_the_user config keys :
  chosen (select_loop config keys) = Cancelled <->
  exists bad tail,
    keys = (Line <$> bad) ++ tail /\
    Forall (turned_down (length config)) bad /\
    (tail = [] \/ exists keys', tail = Interrupt :: keys').
Proof.
  split.
  - induction keys as [|[text|] keys IH].
    + intros _. exists [], []. auto.
    + cbn [select_loop]. destruct (int text) as [n|] eqn:Hi.
      * cbv zeta.
        destruct (0 <=? n - 1)%Z eqn:E1;
          destruct (n - 1 <? Z.of_nat (length config))%Z eqn:E2; cbn [andb].
        1: destruct (config !! Z.to_nat (n - 1)) as [p|] eqn:Hp; [done|].
        1: { apply lookup_ge_None in Hp. lia. }
        all: rewrite retry_chosen; intros (bad & tail & -> & Hbad & Ht)%IH.
        all: exists (text :: bad), tail; split; [done|]; split; [|done].
        all: constructor; [|done]; unfold turned_down; rewrite Hi; lia.
      * rewrite retry_chosen. intros (bad & tail & -> & Hbad & Ht)%IH.
        exists (text :: bad), tail. split; [done|]. split; [|done].
        constructor; [|done]. unfold turned_down. by rewrite Hi.
    + intros _. exists [], (Interrupt :: keys). eauto.
  - intros (bad & tail & -> & Hbad & Ht).
    rewrite select_loop_skips by done. cbn [chosen].
    by destruct Ht as [->|[keys' ->]].
Qed.

(** X14.  Whatever is typed, an entry that [select_patch] returns is an
    entry of the catalog, and what is left unread is the tail of the
    input behind the lines it consumed. *)
Theorem selection_stays_in_the_catalog config keys p :
  chosen (select_patch_of config keys) = Chosen p ->
  p ∈ config /\ unread (select_patch_of config keys) `suffix_of` keys.
Proof.
  assert (forall ks, chosen (select_loop config ks) = Chosen p ->
            p ∈ config /\ unread (select_loop config ks) `suffix_of` ks) as Hloop.
  { induction ks as [|[text|] ks IH]; [done| |done].
    cbn [select_loop]. destruct (int text) as [n|].
    - cbv zeta.
      destruct ((0 <=? n - 1)%Z && (n - 1 <? Z.of_nat (length config))%Z).
      + destruct (config !! Z.to_nat (n - 1)) as [q|] eqn:Hq.
        * intros [= ->]. split; [by eapply list_elem_of_lookup_2|].
          by apply suffix_cons_r.
        * cbn [retry chosen unread]. intros [? ?]%IH.
          split; [done|by apply suffix_cons_r].
      + cbn [retry chosen unread]. intros [? ?]%IH.
        split; [done|by apply suffix_cons_r].
    - cbn [retry chosen unread]. intros [? ?]%IH.
      split; [done|by apply suffix_cons_r]. }
  unfold select_patch_of. destruct config as [|q [|q' config]]; try apply Hloop.
  cbn [chosen unread]. intros [= ->]. split; [apply list_elem_of_here|done].
Qed.

(** X15.  With an empty catalog no input selects anything: every number
    is out of the range "between 1 and 0", and the function can only
    leave through [sys.exit(1)]. *)
Theorem empty_catalog_selects_nothing keys :
  chosen (select_patch_of [] keys) = Cancelled /\
  forall text n,
    int text = Some n ->
    select_patch_of [] (Line text :: keys) =
      retry (out_of_range_notice 0) (select_patch_of [] keys).
Proof.
  split.
  - cbn [select_patch_of].
    induction keys as [|[text|] keys IH]; [done| |done].
    cbn [select_loop]. destruct (int text) as [n|]; [|done].
    cbv zeta. cbn [length]. by rewrite andb_comm, ?lookup_nil;
      destruct (n - 1 <? Z.of_nat 0)%Z, (0 <=? n - 1)%Z.
  - intros text n Hi. cbn [select_patch_of select_loop]. rewrite Hi.
    cbv zeta. cbn [length].
    by destruct (n - 1 <? Z.of_nat 0)%Z eqn:E, (0 <=? n - 1)%Z eqn:E'; try lia.
Qed.

(** X16.  The menu and the selection agree: the number the menu shows
    beside an entry is a number that selects this entry. *)
Theorem menu_number_selects_its_entry config i p fs text keys :
  config !! i = Some p ->
  int text = Some (Z.of_nat (i + 1)) ->
  In (menu_line i p) (events (display_patches_of config fs)) /\
  chosen (select_patch_of config (Line text :: keys)) = Chosen p.
Proof.
  intros Hp Hi. split.
  - rewrite menu_lists_the_catalog. cbn [events].
    apply in_or_app. right. destruct config as [|q config]; [done|].
    apply in_or_app. left. apply list_elem_of_In, list_elem_of_lookup.
    exists i. by rewrite list_lookup_imap, Hp.
  - pose proof (lookup_lt_Some _ _ _ Hp) as Hlt.
    assert (chosen (select_loop config (Line text :: keys)) = Chosen p) as Hloop.
    { rewrite (select_loop_accepts config text _ p keys Hi); [done|lia|].
      by replace (Z.to_nat (Z.of_nat (i + 1) - 1)) with i by lia. }
    unfold select_patch_of. destruct config as [|q [|q' config]]; try done.
    destruct i; [|simpl in Hlt; lia]. injection Hp as ->. reflexivity.
Qed.

End Selecting.

Section Running.

Context `{PyLib}.
Implicit Types (config : list patch) (keys : list key).

Lemma said_only_prints config keys a :
  In a (said (select_patch_of config keys)) -> opens_file a = false.
Proof.
  assert (forall ks, In a (said (select_loop config ks)) -> opens_file a = false)
    as Hloop.
  { induction ks as [|[text|] ks IH]; cbn [select_loop].
    - cbn. intros [<-|[<-|[]]]; done.
    - destruct (int text) as [n|].
      + cbv zeta.
        destruct ((0 <=? n - 1)%Z && (n - 1 <? Z.of_nat (length config))%Z);
          [destruct (config !! Z.to_nat (n - 1))|].
        * cbn. intros [<-|[]]; done.
        * cbn [retry said]. intros [<-|[<-|?]]; auto.
        * cbn [retry said]. intros [<-|[<-|?]]; auto.
      + cbn [retry said]. intros [<-|[<-|?]]; auto.
    - cbn. intros [<-|[<-|[]]]; done. }
  unfold select_patch_of. destruct config as [|q [|q' config]]; try apply Hloop.
  cbn. intros [<-|[]]; done.
Qed.

Lemma menu_only_prints config fs a :
  In a (Did <$> events (display_patches_of config fs)) -> opens_file a = false.
Proof.
  rewrite menu_lists_the_catalog. cbn [events].
  intros Ha. apply list_elem_of_In, list_elem_of_fmap in Ha as (e & -> & He).
  apply list_elem_of_In, in_app_or in He as [He|He].
  - simpl in He. by destruct He as [<-|[<-|[<-|[]]]].
  - destruct config as [|q config]; [simpl in He; by destruct He as [<-|[]]|].
    apply in_app_or in He as [He|He];
      [|simpl in He; by destruct He as [<-|[]]].
    apply list_elem_of_In, list_elem_of_lookup in He as [i Hi].
    rewrite list_lookup_imap in Hi.
    destruct ((q :: config) !! i); by simplify_eq/=.
Qed.

(** X17.  Once the arguments name a file and an entry is chosen, the
    process ends with what [apply_patch] did for that file and entry: the
    exit status is 0 exactly when the call returned from line 180 or from
    line 155, it is 1 for every other return, and an uncaught exception
    of the call is one of the process.  The disk is the one the call
    left. *)
Theorem exit_status_reports_the_patch config argv keys fs so_file p :
  length argv <> 1 ->
  parse_args (tail argv) = inr so_file ->
  chosen (select_patch_of config keys) = Chosen p ->
  (ending (main_of config argv keys fs) = SystemExit 0 <->
     (exists out, result (apply_patch so_file p fs) = Returned (Success out)) \/
     result (apply_patch so_file p fs) = Returned AlreadyPatched) /\
  (ending (main_of config argv keys fs) = SystemExit 1 <->
     exists x, result (apply_patch so_file p fs) = Returned x /\
               python_return x = false) /\
  (forall e, ending (main_of config argv keys fs) = Uncaught e <->
             result (apply_patch so_file p fs) = Raised e) /\
  disk_after (main_of config argv keys fs) = disk (apply_patch so_file p fs) /\
  unread_after (main_of config argv keys fs) =
    unread (select_patch_of config keys).
Proof.
  intros Hargv%Nat.eqb_neq Hparse Hsel. unfold main_of.
  rewrite Hargv, Hparse. cbv zeta. rewrite Hsel.
  rewrite menu_lists_the_catalog. cbn [disk ending disk_after unread_after].
  destruct (result (apply_patch so_file p fs)) as [x|e].
  - split; [|split; [|split; [|done]]].
    + split.
      * destruct x; cbn; intros [=]; eauto.
      * intros [[out [= ->]]|[= ->]]; done.
    + split.
      * destruct x; cbn; intros [=]; eauto.
      * intros (y & [= <-] & Hy). by rewrite Hy.
    + intros e. split; intros [=].
  - split; [|split; [|split; [|done]]].
    + split; [intros [=]|intros [[out [=]]|[=]]].
    + split; [intros [=]|intros (y & [=] & _)].
    + intros e'. split; by intros [= ->].
Qed.

(** X18.  When the selection is given up, the process leaves with status
    1 before [apply_patch] is called: no file has been opened and the
    disk is unchanged. *)
Theorem cancelled_selection_touches_no_file config argv keys fs so_file :
  length argv <> 1 ->
  parse_args (tail argv) = inr so_file ->
  chosen (select_patch_of config keys) = Cancelled ->
  ending (main_of config argv keys fs) = SystemExit 1 /\
  disk_after (main_of config argv keys fs) = fs /\
  forallb (fun a => negb (opens_file a)) (transcript (main_of config argv keys fs))
    = true.
Proof.
  intros Hargv%Nat.eqb_neq Hparse Hsel. unfold main_of.
  rewrite Hargv, Hparse. cbv zeta. rewrite Hsel.
  cbn [ending disk_after transcript].
  split; [done|]. split; [by rewrite menu_lists_the_catalog|].
  apply forallb_forall. intros a [Ha|Ha]%in_app_or.
  - by rewrite (menu_only_prints _ _ _ Ha).
  - by rewrite (said_only_prints _ _ _ Ha).
Qed.

(** X19.  Whatever is typed and whatever the catalog holds, a session
    started on a file opens for writing no path but the [.patched]
    sibling of that file, never the file itself, and leaves every other
    path of the disk as it was. *)
Theorem session_writes_only_the_sibling config argv keys fs so_file :
  length argv <> 1 ->
  parse_args (tail argv) = inr so_file ->
  (forall q, In (Did (OpenWrite q)) (transcript (main_of config argv keys fs)) ->
             q = so_file ++ lit ".patched") /\
  ~ In (Did (OpenWrite so_file)) (transcript (main_of config argv keys fs)) /\
  (forall q, q <> so_file ++ lit ".patched" ->
             disk_after (main_of config argv keys fs) !! q = fs !! q).
Proof.
  intros Hargv%Nat.eqb_neq Hparse.
  assert (forall q,
            In (Did (OpenWrite q)) (transcript (main_of config argv keys fs)) ->
            q = so_file ++ lit ".patched") as Hw.
  { intros q. unfold main_of. rewrite Hargv, Hparse. cbv zeta.
    destruct (chosen (select_patch_of config keys)) as [p|];
      cbn [transcript]; rewrite ?in_app_iff.
    - intros [Ha|[Ha|Ha]].
      + by apply menu_only_prints in Ha.
      + by apply said_only_prints in Ha.
      + apply list_elem_of_In, list_elem_of_fmap in Ha as (e & [= <-] & He).
        apply list_elem_of_In in He. revert He.
        rewrite menu_lists_the_catalog. cbn [disk].
        by apply apply_patch_frame.
    - intros [Ha|Ha].
      + by apply menu_only_prints in Ha.
      + by apply said_only_prints in Ha. }
  split; [done|]. split.
  - intros Ha%Hw. symmetry in Ha. by apply patched_path_fresh in Ha.
  - intros q Hq. unfold main_of. rewrite Hargv, Hparse. cbv zeta.
    rewrite menu_lists_the_catalog.
    destruct (chosen (select_patch_of config keys)) as [p|];
      cbn [disk disk_after]; [|done].
    by apply apply_patch_frame.
Qed.

End Running.

(** ** The further results on small inputs *)

Lemma first_valid_line_selects_witness :
  select_patch_of demo_catalog
    ((Line <$> [lit "x"; lit "0"; lit "7"]) ++ Line (lit "2") :: [Line (lit "1")]) =
    Selection (Chosen overlap_patch) [Line (lit "1")]
      (notices (length demo_catalog) [lit "x"; lit "0"; lit "7"]
         ++ [Asked select_prompt]).
Proof.
  apply (first_valid_line_selects demo_catalog [lit "x"; lit "0"; lit "7"]
           (lit "2") 2 overlap_patch [Line (lit "1")]).
  - simpl. lia.
  - repeat constructor; unfold turned_down; simpl; lia.
  - reflexivity.
  - simpl. lia.
  - reflexivity.
Defined.

Lemma selection_stays_in_the_catalog_witness :
  latin1_patch ∈ demo_catalog /\
  unread (select_patch_of demo_catalog [Line (lit "9"); Line (lit "3"); Interrupt])
    `suffix_of` [Line (lit "9"); Line (lit "3"); Interrupt].
Proof.
  apply (selection_stays_in_the_catalog demo_catalog
           [Line (lit "9"); Line (lit "3"); Interrupt] latin1_patch).
  reflexivity.
Defined.

Lemma menu_number_selects_its_entry_witness :
  In (menu_line 1 overlap_patch) (events (display_patches_of demo_catalog ∅)) /\
  chosen (select_patch_of demo_catalog (Line (lit "2") :: [])) =
    Chosen overlap_patch.
Proof.
  apply (menu_number_selects_its_entry demo_catalog 1 overlap_patch ∅
           (lit "2") []).
  - reflexivity.
  - reflexivity.
Defined.

Lemma exit_status_reports_the_patch_witness :
  (ending (main_of demo_catalog [lit "patcher.py"; lit "f"] [Line (lit "1")]
             (demo_disk [x41; x01])) = SystemExit 0 <->
     (exists out,
        result (apply_patch (lit "f") demo_patch (demo_disk [x41; x01])) =
          Returned (Success out)) \/
     result (apply_patch (lit "f") demo_patch (demo_disk [x41; x01])) =
       Returned AlreadyPatched) /\
  (ending (main_of demo_catalog [lit "patcher.py"; lit "f"] [Line (lit "1")]
             (demo_disk [x41; x01])) = SystemExit 1 <->
     exists x,
       result (apply_patch (lit "f") demo_patch (demo_disk [x41; x01])) =
         Returned x /\ python_return x = false) /\
  (forall e,
     ending (main_of demo_catalog [lit "patcher.py"; lit "f"] [Line (lit "1")]
               (demo_disk [x41; x01])) = Uncaught e <->
     result (apply_patch (lit "f") demo_patch (demo_disk [x41; x01])) = Raised e) /\
  disk_after (main_of demo_catalog [lit "patcher.py"; lit "f"] [Line (lit "1")]
                (demo_disk [x41; x01])) =
    disk (apply_patch (lit "f") demo_patch (demo_disk [x41; x01])) /\
  unread_after (main_of demo_catalog [lit "patcher.py"; lit "f"] [Line (lit "1")]
                  (demo_disk [x41; x01])) =
    unread (select_patch_of demo_catalog [Line (lit "1")]).
Proof.
  apply (exit_status_reports_the_patch demo_catalog
           [lit "patcher.py"; lit "f"] [Line (lit "1")] (demo_disk [x41; x01])
           (lit "f") demo_patch).
  - simpl. lia.
  - reflexivity.
  - reflexivity.
Defined.

Lemma cancelled_selection_touches_no_file_witness :
  ending (main_of demo_catalog [lit "patcher.py"; lit "f"] [Line (lit "x")]
            (demo_disk [x41; x01])) = SystemExit 1 /\
  disk_after (main_of demo_catalog [lit "patcher.py"; lit "f"] [Line (lit "x")]
                (demo_disk [x41; x01])) = demo_disk [x41; x01] /\
  forallb (fun a => negb (opens_file a))
    (transcript (main_of demo_catalog [lit "patcher.py"; lit "f"]
                   [Line (lit "x")] (demo_disk [x41; x01]))) = true.
Proof.
  apply (cancelled_selection_touches_no_file demo_catalog
           [lit "patcher.py"; lit "f"] [Line (lit "x")] (demo_disk [x41; x01])
           (lit "f")).
  - simpl. lia.
  - reflexivity.
  - reflexivity.
Defined.

Lemma session_writes_only_the_sibling_witness :
  (forall q,
     In (Did (OpenWrite q))
       (transcript (main_of demo_catalog [lit "patcher.py"; lit "f"]
                      [Line (lit "1")] (demo_disk [x41; x01]))) ->
     q = lit "f" ++ lit ".patched") /\
  ~ In (Did (OpenWrite (lit "f")))
      (transcript (main_of demo_catalog [lit "patcher.py"; lit "f"]
                     [Line (lit "1")] (demo_disk [x41; x01]))) /\
  (forall q, q <> lit "f" ++ lit ".patched" ->
     disk_after (main_of demo_catalog [lit "patcher.py"; lit "f"]
                   [Line (lit "1")] (demo_disk [x41; x01])) !! q =
       demo_disk [x41; x01] !! q).
Proof.
  apply (session_writes_only_the_sibling demo_catalog
           [lit "patcher.py"; lit "f"] [Line (lit "1")] (demo_disk [x41; x01])
           (lit "f")).
  - simpl. lia.
  - reflexivity.
Defined.
